(** * ElfObject: ELF and PS-X EXE header parsing (pcsx2/Elfheader.cpp)

    A shallow embedding of [ElfObject] and the properties of its loading,
    header initialisation, entry point, text range, checksum and header
    dump.

    Conventions.
    - The byte buffer [data] (a [std::vector<u8>]) is a [list byte].
    - Fixed-width integers are [Z] with the wrap-around written out
      ([u32], [size_t]).  The target is a 64-bit little-endian host, as
      PCSX2 requires: [size_t] has 64 bits and a [reinterpret_cast] of a
      buffer position to a header struct decodes fields little-endian.
    - [proghead] and [secthead] are pointers into [data]; they are
      modelled by the byte offset they point at, [None] being [nullptr].
    - Every read of the buffer goes through [read_bytes], which reports
      an access outside the buffer ([OutOfBounds]) instead of a value:
      in C++ such a read is undefined behaviour.
    - Console, DevCon and ELF_LOG output is collected as a list of
      diagnostic records. *)

From Stdlib Require Import String ZArith List Lia Bool.
From coqutil Require Import Byte Word.LittleEndianList.
Import ListNotations.
Local Open Scope Z_scope.

(** ** Machine integers *)

Definition u32 (z : Z) : Z := z mod 2 ^ 32.
Definition size_t (z : Z) : Z := z mod 2 ^ 64.

(** ** Diagnostics *)

Inductive LogArg : Type :=
| ArgZ (z : Z)                 (* an integer argument *)
| ArgText (s : string)         (* a string literal of the program *)
| ArgBytes (bs : list byte)    (* a NUL-terminated string read from the buffer *)
| ArgNull.                     (* a null [const char*] *)

Inductive Diag : Type :=
| DevCon_WriteLn (fmt : string) (args : list LogArg)
| Console_Error (fmt : string) (args : list LogArg)
| Console_Warning (fmt : string) (args : list LogArg)
| ELF_LOG (fmt : string) (args : list LogArg).

(** ** Outcomes: a value with the diagnostics emitted, or an access
    outside the buffer at byte offset [off]. *)

Inductive Outcome (A : Type) : Type :=
| Ok (a : A) (log : list Diag)
| OutOfBounds (off : Z).
Arguments Ok {A} a log.
Arguments OutOfBounds {A} off.

Definition ret {A} (a : A) : Outcome A := Ok a [].

Definition bind {A B} (m : Outcome A) (f : A -> Outcome B) : Outcome B :=
  match m with
  | Ok a l =>
      match f a with
      | Ok b l' => Ok b (l ++ l')
      | OutOfBounds off => OutOfBounds off
      end
  | OutOfBounds off => OutOfBounds off
  end.

Definition emit (d : Diag) : Outcome unit := Ok tt [d].

Definition when (b : bool) (m : Outcome unit) : Outcome unit :=
  if b then m else ret tt.

Notation "x <- c1 ;; c2" := (bind c1 (fun x => c2))
  (at level 61, c1 at next level, right associativity).
Notation "c1 ;; c2" := (bind c1 (fun _ => c2))
  (at level 61, right associativity).

(** An outcome that is a value: no read left the buffer. *)
Definition succeeds {A} (m : Outcome A) : Prop := exists a l, m = Ok a l.

(** ** Reading the buffer *)

Definition read_bytes (data : list byte) (off : Z) (n : nat) : Outcome (list byte) :=
  if (0 <=? off) && (off + Z.of_nat n <=? Z.of_nat (length data))
  then ret (firstn n (skipn (Z.to_nat off) data))
  else OutOfBounds off.

Definition read_u16 (data : list byte) (off : Z) : Outcome Z :=
  bs <- read_bytes data off 2 ;; ret (le_combine bs).

Definition read_u32 (data : list byte) (off : Z) : Outcome Z :=
  bs <- read_bytes data off 4 ;; ret (le_combine bs).

(** The bytes of [l] before its first NUL, if it has one. *)
Fixpoint until_NUL (l : list byte) : option (list byte) :=
  match l with
  | [] => None
  | b :: l' =>
      if Byte.eqb b Byte.x00 then Some []
      else option_map (cons b) (until_NUL l')
  end.

(** Reading a C string at [off], as formatting [%s] does: the scan stops
    at the first NUL and runs off the buffer when there is none. *)
Definition read_cstring (data : list byte) (off : Z) : Outcome (list byte) :=
  if (0 <=? off) && (off <? Z.of_nat (length data))
  then match until_NUL (skipn (Z.to_nat off) data) with
       | Some s => ret s
       | None => OutOfBounds (Z.of_nat (length data))
       end
  else OutOfBounds off.

(** The value of the 16- and 32-bit little-endian field at [off]. *)
Definition field_u16 (data : list byte) (off : Z) : Z :=
  le_combine (firstn 2 (skipn (Z.to_nat off) data)).
Definition field_u32 (data : list byte) (off : Z) : Z :=
  le_combine (firstn 4 (skipn (Z.to_nat off) data)).

(** ** Header layouts *)

(** Modelled from the spec: [ELF_HEADER] is declared in Elfheader.h, which
    is not among the sources; the standard 32-bit ELF header, 52 bytes,
    fields at their byte offsets. *)
Module ELF_HEADER.
Definition sizeof : Z := 52.
Definition e_type : Z := 16.
Definition e_machine : Z := 18.
Definition e_version : Z := 20.
Definition e_entry : Z := 24.
Definition e_phoff : Z := 28.
Definition e_shoff : Z := 32.
Definition e_flags : Z := 36.
Definition e_ehsize : Z := 40.
Definition e_phentsize : Z := 42.
Definition e_phnum : Z := 44.
Definition e_shentsize : Z := 46.
Definition e_shnum : Z := 48.
Definition e_shstrndx : Z := 50.
End ELF_HEADER.

(** Modelled from the spec: [ELF_PHR] (Elfheader.h), the 32-byte
    program-header record of eight 32-bit fields. *)
Module ELF_PHR.
Definition sizeof : Z := 32.
Definition p_type : Z := 0.
Definition p_offset : Z := 4.
Definition p_vaddr : Z := 8.
Definition p_paddr : Z := 12.
Definition p_filesz : Z := 16.
Definition p_memsz : Z := 20.
Definition p_flags : Z := 24.
Definition p_align : Z := 28.
End ELF_PHR.

(** Modelled from the spec: [ELF_SHR] (Elfheader.h), the 40-byte
    section-header record of ten 32-bit fields. *)
Module ELF_SHR.
Definition sizeof : Z := 40.
Definition sh_name : Z := 0.
Definition sh_type : Z := 4.
Definition sh_flags : Z := 8.
Definition sh_addr : Z := 12.
Definition sh_offset : Z := 16.
Definition sh_size : Z := 20.
Definition sh_link : Z := 24.
Definition sh_info : Z := 28.
Definition sh_addralign : Z := 32.
Definition sh_entsize : Z := 36.
End ELF_SHR.

(** [struct PSXEXEHeader], packed, 0x800 bytes. *)
Module PSXEXEHeader.
Definition sizeof : Z := 0x800.
Definition id : Z := 0x000.
Definition initial_pc : Z := 0x010.
Definition initial_gp : Z := 0x014.
Definition load_address : Z := 0x018.
Definition file_size : Z := 0x01C.
End PSXEXEHeader.

Definition expected_id : list byte := list_byte_of_string "PS-X EXE".

(** ** Errors *)

(** The error kinds of a load.  The program reports an error as a
    message ([Error::SetString]); [message] gives the text of each kind. *)
Inductive ErrorKind : Type := TooLarge | NotFound | Truncated | IoError.

Definition message (e : ErrorKind) : string :=
  match e with
  | TooLarge => "Illegal ELF file size over 2GB!"
  | NotFound => "ELF file does not exist!"
  | Truncated => "Unexpected end of ELF file."
  | IoError => "Failed to read ELF from '{}'"
  end.

Inductive SizeCheck : Type :=
| Accepted                 (* returns true *)
| Rejected (e : ErrorKind). (* sets the error and returns false *)

(** [ElfObject::CheckElfSize(s64 size, Error* error)] *)
Definition CheckElfSize (size : Z) : SizeCheck :=
  if size >? 0xfffffff then Rejected TooLarge
  else if size =? -1 then Rejected NotFound
  else if size <=? ELF_HEADER.sizeof then Rejected Truncated
  else Accepted.

(** ** The object *)

Record ElfObject : Type := mkElfObject {
  data : list byte;          (* std::vector<u8> data *)
  proghead : option Z;       (* ELF_PHR* proghead, as an offset into data *)
  secthead : option Z;       (* ELF_SHR* secthead, as an offset into data *)
  filename : string;
  isPSXElf : bool
}.

(** Modelled from the spec: the member initialisers are in Elfheader.h;
    the object is constructed empty, with both views absent. *)
Definition ElfObject_ctor : ElfObject :=
  mkElfObject [] None None EmptyString false.

(** [data.size()] *)
Definition size (obj : ElfObject) : Z := Z.of_nat (length (data obj)).

Definition set_proghead (obj : ElfObject) (p : option Z) : ElfObject :=
  mkElfObject (data obj) p (secthead obj) (filename obj) (isPSXElf obj).
Definition set_secthead (obj : ElfObject) (p : option Z) : ElfObject :=
  mkElfObject (data obj) (proghead obj) p (filename obj) (isPSXElf obj).

(** [GetHeader().field]: the header is the start of the buffer. *)
Definition header_u16 (obj : ElfObject) (field : Z) : Outcome Z :=
  read_u16 (data obj) field.
Definition header_u32 (obj : ElfObject) (field : Z) : Outcome Z :=
  read_u32 (data obj) field.

(** [proghead[i].field] and [secthead[i].field] for a table at offset [p]. *)
Definition phr_u32 (obj : ElfObject) (p i field : Z) : Outcome Z :=
  read_u32 (data obj) (p + ELF_PHR.sizeof * i + field).
Definition shr_u32 (obj : ElfObject) (p i field : Z) : Outcome Z :=
  read_u32 (data obj) (p + ELF_SHR.sizeof * i + field).

(** [ElfObject::HasValidPSXHeader] *)
Definition HasValidPSXHeader (obj : ElfObject) : Outcome bool :=
  if size obj <? PSXEXEHeader.sizeof then ret false
  else
    id <- read_bytes (data obj) PSXEXEHeader.id 8 ;;
    if negb (if list_eq_dec Byte.byte_eq_dec id expected_id then true else false)
    then ret false
    else
      file_size <- read_u32 (data obj) PSXEXEHeader.file_size ;;
      when (file_size + PSXEXEHeader.sizeof >? size obj)
           (emit (Console_Warning
                    "Incorrect file size in PS-EXE header: %u bytes should not be greater than %u bytes"
                    [ArgZ file_size; ArgZ (u32 (size obj - PSXEXEHeader.sizeof))])) ;;
      ret true.

(** [ElfObject::HasProgramHeaders], [HasSectionHeaders], [HasHeaders] *)
Definition HasProgramHeaders (obj : ElfObject) : bool :=
  match proghead obj with Some _ => true | None => false end.
Definition HasSectionHeaders (obj : ElfObject) : bool :=
  match secthead obj with Some _ => true | None => false end.
Definition HasHeaders (obj : ElfObject) : bool :=
  HasProgramHeaders obj && HasSectionHeaders obj.

(** [ElfObject::GetEntryPoint] *)
Definition GetEntryPoint (obj : ElfObject) : Outcome Z :=
  if isPSXElf obj then
    valid <- HasValidPSXHeader obj ;;
    if valid then read_u32 (data obj) PSXEXEHeader.initial_pc
    else ret 0xFFFFFFFF
  else header_u32 obj ELF_HEADER.e_entry.

(** The loop of [GetTextRange]: [n] iterations remain, [i] is the index. *)
Fixpoint GetTextRange_loop (obj : ElfObject) (p : Z) (n : nat) (i : Z)
  : Outcome (Z * Z) :=
  match n with
  | O => ret (0, 0)
  | S n' =>
      start <- phr_u32 obj p i ELF_PHR.p_vaddr ;;
      sz <- phr_u32 obj p i ELF_PHR.p_memsz ;;
      e_entry <- header_u32 obj ELF_HEADER.e_entry ;;
      if (start <=? e_entry) && (u32 (start + sz) >? e_entry)
      then ret (start, sz)
      else GetTextRange_loop obj p n' (i + 1)
  end.

(** [ElfObject::GetTextRange] *)
Definition GetTextRange (obj : ElfObject) : Outcome (Z * Z) :=
  match negb (isPSXElf obj), proghead obj with
  | true, Some p =>
      e_phnum <- header_u16 obj ELF_HEADER.e_phnum ;;
      GetTextRange_loop obj p (Z.to_nat e_phnum) 0
  | _, _ => ret (0, 0)
  end.

(** The loop of [GetCRC]: [i] words remain, [srcdata] is the byte offset
    of the next word. *)
Fixpoint GetCRC_loop (obj : ElfObject) (i : nat) (srcdata : Z) (CRC : Z)
  : Outcome Z :=
  match i with
  | O => ret CRC
  | S i' =>
      w <- read_u32 (data obj) srcdata ;;
      GetCRC_loop obj i' (srcdata + 4) (Z.lxor CRC w)
  end.

(** [ElfObject::GetCRC] *)
Definition GetCRC (obj : ElfObject) : Outcome Z :=
  GetCRC_loop obj (Z.to_nat (u32 (size obj) / 4)) 0 0.

(** ** External collaborators of a load *)

(** Modelled from the spec: the disc-image reader (CDVD/IsoReader.h is not
    among the sources).  [LocateFile] looks a path up in the image's
    directory and gives the entry with its declared length, a [u32];
    [ReadFile] reads an entry's bytes or fails. *)
Record IsoDirectoryEntry : Type := { lba : Z; length_le : Z }.
Record IsoReader : Type := {
  LocateFile : string -> option IsoDirectoryEntry;
  ReadFile : IsoDirectoryEntry -> option (list byte)
}.

(** Modelled from the spec: the filesystem (common/FileSystem.h is not
    among the sources).  Opening a path gives a stream or fails;
    [StatFile] gives the size, an [s64], or fails; [stream] is what
    reading the open file delivers. *)
Record ManagedCFile : Type := { StatFile : option Z; stream : list byte }.
Definition FileSystem : Type := string -> option ManagedCFile.

(** [std::fread(buf, n, 1, fp)] reads one item of [n] bytes: it returns 1
    when [n] is positive and the stream has [n] bytes, and 0 otherwise. *)
Definition fread (fp : ManagedCFile) (n : Z) : option (list byte) :=
  if (0 <? n) && (n <=? Z.of_nat (length (stream fp)))
  then Some (firstn (Z.to_nat n) (stream fp))
  else None.

(** The result of a load: [true] with the populated object, or [false]
    with the error set; a failed object is discarded by the caller. *)
Inductive LoadResult : Type :=
| Loaded (obj : ElfObject)
| Failed (e : ErrorKind).

(** The string of [ELF_LOG("\n")]: one line feed. *)
Definition LF : string :=
  String (Ascii.Ascii false true false true false false false false) EmptyString.

Section Tracing.

(** [ELF_LOG] is a macro of DebugTools/Debug.h, which is not among the
    sources.  Whether ELF trace logging is active is a parameter: when
    it is, a log statement evaluates its arguments and emits a record;
    when it is not, the statement does nothing. *)
Variable trace : bool.

Definition elf_log (fmt : string) (args : Outcome (list LogArg)) : Outcome unit :=
  if trace then a <- args ;; emit (ELF_LOG fmt a) else ret tt.

Definition arg (m : Outcome Z) : Outcome (list LogArg) :=
  v <- m ;; ret [ArgZ v].

Definition text (s : string) : Outcome (list LogArg) := ret [ArgText s].

Definition no_args : Outcome (list LogArg) := ret [].

(** [ElfObject::InitElfHeaders] *)
Definition InitElfHeaders (obj : ElfObject) : Outcome ElfObject :=
  if isPSXElf obj then ret obj
  else
    emit (DevCon_WriteLn "Initializing Elf: %zu bytes" [ArgZ (size obj)]) ;;
    e_phnum <- header_u16 obj ELF_HEADER.e_phnum ;;
    obj1 <- (if e_phnum >? 0 then
               e_phoff <- header_u32 obj ELF_HEADER.e_phoff ;;
               if e_phoff + ELF_PHR.sizeof <=? size obj
               then ret (set_proghead obj (Some e_phoff))
               else
                 emit (Console_Error
                         "(ELF) Program header offset %u is larger than file size %zu"
                         [ArgZ e_phoff; ArgZ (size obj)]) ;;
                 ret obj
             else ret obj) ;;
    e_shnum <- header_u16 obj ELF_HEADER.e_shnum ;;
    obj2 <- (if e_shnum >? 0 then
               e_shoff <- header_u32 obj ELF_HEADER.e_shoff ;;
               if e_shoff + ELF_SHR.sizeof <=? size obj
               then ret (set_secthead obj1 (Some e_shoff))
               else
                 emit (Console_Error
                         "(ELF) Section header offset %u is larger than file size %zu"
                         [ArgZ e_shoff; ArgZ (size obj)]) ;;
                 ret obj1
             else ret obj1) ;;
    (if e_shnum >? 0 then
       e_shentsize <- header_u16 obj ELF_HEADER.e_shentsize ;;
       when (negb (e_shentsize =? ELF_SHR.sizeof))
            (emit (Console_Error "(ELF) Size of section headers is not standard" []))
     else ret tt) ;;
    (if e_phnum >? 0 then
       e_phentsize <- header_u16 obj ELF_HEADER.e_phentsize ;;
       when (negb (e_phentsize =? ELF_PHR.sizeof))
            (emit (Console_Error "(ELF) Size of program headers is not standard" []))
     else ret tt) ;;
    e_type <- header_u16 obj ELF_HEADER.e_type ;;
    (if e_type =? 0 then elf_log "type:      %s" (text "no file type")
     else if e_type =? 1 then elf_log "type:      %s" (text "relocatable")
     else if e_type =? 2 then elf_log "type:      %s" (text "executable")
     else elf_log "type:      unknown = %x" (arg (header_u16 obj ELF_HEADER.e_type))) ;;
    e_machine <- header_u16 obj ELF_HEADER.e_machine ;;
    (if e_machine =? 1 then elf_log "machine:  %s" (text "AT&T WE 32100")
     else if e_machine =? 2 then elf_log "machine:  %s" (text "SPARC")
     else if e_machine =? 3 then elf_log "machine:  %s" (text "Intel 80386")
     else if e_machine =? 4 then elf_log "machine:  %s" (text "Motorola 68000")
     else if e_machine =? 5 then elf_log "machine:  %s" (text "Motorola 88000")
     else if e_machine =? 7 then elf_log "machine:  %s" (text "Intel 80860")
     else if e_machine =? 8 then elf_log "machine:  %s" (text "mips_rs3000")
     else elf_log "machine:  unknown = %x" (arg (header_u16 obj ELF_HEADER.e_machine))) ;;
    elf_log "version:   %d" (arg (header_u32 obj ELF_HEADER.e_version)) ;;
    elf_log "entry:	    %08x" (arg (header_u32 obj ELF_HEADER.e_entry)) ;;
    elf_log "flags:     %08x" (arg (header_u32 obj ELF_HEADER.e_flags)) ;;
    elf_log "eh size:   %08x" (arg (header_u16 obj ELF_HEADER.e_ehsize)) ;;
    elf_log "ph off:    %08x" (arg (header_u32 obj ELF_HEADER.e_phoff)) ;;
    elf_log "ph entsiz: %08x" (arg (header_u16 obj ELF_HEADER.e_phentsize)) ;;
    elf_log "ph num:    %08x" (arg (header_u16 obj ELF_HEADER.e_phnum)) ;;
    elf_log "sh off:    %08x" (arg (header_u32 obj ELF_HEADER.e_shoff)) ;;
    elf_log "sh entsiz: %08x" (arg (header_u16 obj ELF_HEADER.e_shentsize)) ;;
    elf_log "sh num:    %08x" (arg (header_u16 obj ELF_HEADER.e_shnum)) ;;
    elf_log "sh strndx: %08x" (arg (header_u16 obj ELF_HEADER.e_shstrndx)) ;;
    elf_log LF no_args ;;
    ret obj2.

(** [ElfObject::OpenIsoFile] on the object [obj].  Nothing in a load
    resets [proghead] and [secthead]: a view the object holds from an
    earlier load stays non-null.  It then points into the storage of the
    earlier buffer; the model keeps its offset, which says where it
    points only as long as the vector did not reallocate.  The properties
    below use of such a view only that it is present. *)
Definition OpenIsoFile (obj : ElfObject) (srcfile : string) (isor : IsoReader)
    (isPSXElf_ : bool) : Outcome LoadResult :=
  match LocateFile isor srcfile with
  | None => ret (Failed NotFound)
  | Some de =>
      match CheckElfSize (length_le de) with
      | Rejected e => ret (Failed e)
      | Accepted =>
          match ReadFile isor de with
          | None => ret (Failed IoError)
          | Some bytes =>
              obj' <- InitElfHeaders
                        (mkElfObject bytes (proghead obj) (secthead obj)
                                     srcfile isPSXElf_) ;;
              ret (Loaded obj')
          end
      end
  end.

(** [ElfObject::OpenFile] on the object [obj]; a view held from an earlier
    load is carried as in [OpenIsoFile]. *)
Definition OpenFile (obj : ElfObject) (srcfile : string) (isPSXElf_ : bool)
    (fs : FileSystem) : Outcome LoadResult :=
  match fs srcfile with
  | None => ret (Failed IoError)
  | Some fp =>
      match StatFile fp with
      | None => ret (Failed IoError)
      | Some sd_Size =>
          match (if isPSXElf_ then Accepted else CheckElfSize sd_Size) with
          | Rejected e => ret (Failed e)
          | Accepted =>
              match fread fp (size_t sd_Size) with
              | None => ret (Failed IoError)
              | Some bytes =>
                  obj' <- InitElfHeaders
                            (mkElfObject bytes (proghead obj) (secthead obj)
                                         srcfile isPSXElf_) ;;
                  ret (Loaded obj')
              end
          end
      end
  end.

(** The cast [(int)x] of a [u32]. *)
Definition int_of_u32 (x : Z) : Z := if x <? 2 ^ 31 then x else x - 2 ^ 32.

(** The loop of [LoadProgramHeaders] over the table at offset [p]. *)
Fixpoint LoadProgramHeaders_loop (obj : ElfObject) (p : Z) (n : nat) (i : Z)
  : Outcome unit :=
  match n with
  | O => ret tt
  | S n' =>
      elf_log "Elf32 Program Header" no_args ;;
      elf_log "type:      " no_args ;;
      p_type <- phr_u32 obj p i ELF_PHR.p_type ;;
      (if p_type =? 1 then elf_log "load" no_args
       else elf_log "unknown %x"
              (v <- phr_u32 obj p i ELF_PHR.p_type ;; ret [ArgZ (int_of_u32 v)])) ;;
      elf_log LF no_args ;;
      elf_log "offset:    %08x" (arg (phr_u32 obj p i ELF_PHR.p_offset)) ;;
      elf_log "vaddr:     %08x" (arg (phr_u32 obj p i ELF_PHR.p_vaddr)) ;;
      elf_log "paddr:     %08x" (arg (phr_u32 obj p i ELF_PHR.p_paddr)) ;;
      elf_log "file size: %08x" (arg (phr_u32 obj p i ELF_PHR.p_filesz)) ;;
      elf_log "mem size:  %08x" (arg (phr_u32 obj p i ELF_PHR.p_memsz)) ;;
      elf_log "flags:     %08x" (arg (phr_u32 obj p i ELF_PHR.p_flags)) ;;
      elf_log "palign:    %08x" (arg (phr_u32 obj p i ELF_PHR.p_align)) ;;
      elf_log LF no_args ;;
      LoadProgramHeaders_loop obj p n' (i + 1)
  end.

(** [ElfObject::LoadProgramHeaders] *)
Definition LoadProgramHeaders (obj : ElfObject) : Outcome unit :=
  match proghead obj with
  | None => ret tt
  | Some p =>
      e_phnum <- header_u16 obj ELF_HEADER.e_phnum ;;
      LoadProgramHeaders_loop obj p (Z.to_nat e_phnum) 0
  end.

(** The [switch] on [sh_type]: the name of the type, or null. *)
Definition sectype_of (sh_type : Z) : option string :=
  if sh_type =? 0 then Some "null"%string
  else if sh_type =? 1 then Some "progbits"%string
  else if sh_type =? 2 then Some "symtab"%string
  else if sh_type =? 3 then Some "strtab"%string
  else if sh_type =? 4 then Some "rela"%string
  else if sh_type =? 8 then Some "no bits"%string
  else if sh_type =? 9 then Some "rel"%string
  else None.

(** The loop of [LoadSectionHeaders] over the table at offset [s];
    [sections_names] is [data.data() + section_names_offset], as an
    offset. *)
Fixpoint LoadSectionHeaders_loop (obj : ElfObject) (s sections_names : Z)
    (n : nat) (i : Z) : Outcome unit :=
  match n with
  | O => ret tt
  | S n' =>
      elf_log "ELF32 Section Header [%x] %s"
        (sh_name <- shr_u32 obj s i ELF_SHR.sh_name ;;
         name <- read_cstring (data obj) (sections_names + sh_name) ;;
         ret [ArgZ i; ArgBytes name]) ;;
      elf_log LF no_args ;;
      sh_type <- shr_u32 obj s i ELF_SHR.sh_type ;;
      (match sectype_of sh_type with
       | Some sectype => elf_log "type:      %s" (text sectype)
       | None =>
           elf_log "type:      unknown %08x" (arg (shr_u32 obj s i ELF_SHR.sh_type)) ;;
           elf_log "type:      %s" (ret [ArgNull])
       end) ;;
      elf_log "flags:     %08x" (arg (shr_u32 obj s i ELF_SHR.sh_flags)) ;;
      elf_log "addr:      %08x" (arg (shr_u32 obj s i ELF_SHR.sh_addr)) ;;
      elf_log "offset:    %08x" (arg (shr_u32 obj s i ELF_SHR.sh_offset)) ;;
      elf_log "size:      %08x" (arg (shr_u32 obj s i ELF_SHR.sh_size)) ;;
      elf_log "link:      %08x" (arg (shr_u32 obj s i ELF_SHR.sh_link)) ;;
      elf_log "info:      %08x" (arg (shr_u32 obj s i ELF_SHR.sh_info)) ;;
      elf_log "addralign: %08x" (arg (shr_u32 obj s i ELF_SHR.sh_addralign)) ;;
      elf_log "entsize:   %08x" (arg (shr_u32 obj s i ELF_SHR.sh_entsize)) ;;
      LoadSectionHeaders_loop obj s sections_names n' (i + 1)
  end.

(** [ElfObject::LoadSectionHeaders] *)
Definition LoadSectionHeaders (obj : ElfObject) : Outcome unit :=
  match secthead obj with
  | None => ret tt
  | Some s =>
      e_shoff <- header_u32 obj ELF_HEADER.e_shoff ;;
      if e_shoff >? size obj then ret tt
      else
        e_shstrndx <- header_u16 obj ELF_HEADER.e_shstrndx ;;
        section_names_offset <-
          shr_u32 obj s (if e_shstrndx =? 0xffff then 0 else e_shstrndx)
                  ELF_SHR.sh_offset ;;
        e_shnum <- header_u16 obj ELF_HEADER.e_shnum ;;
        LoadSectionHeaders_loop obj s section_names_offset (Z.to_nat e_shnum) 0
  end.

(** [ElfObject::LoadHeaders] *)
Definition LoadHeaders (obj : ElfObject) : Outcome unit :=
  if isPSXElf obj then ret tt
  else LoadProgramHeaders obj ;; LoadSectionHeaders obj.

End Tracing.

(** ** The checksum and the text range, in the words of their description *)

(** The buffer as a sequence of 32-bit little-endian words; trailing
    bytes that do not form a whole word are dropped. *)
Fixpoint words_le (d : list byte) : list Z :=
  match d with
  | b0 :: b1 :: b2 :: b3 :: rest => le_combine [b0; b1; b2; b3] :: words_le rest
  | _ => []
  end.

(** The exclusive-or of a sequence of words. *)
Definition xor_words (ws : list Z) : Z := fold_right Z.lxor 0 ws.

(** The number of words [GetCRC] processes. *)
Definition crc_words (obj : ElfObject) : nat := Z.to_nat (u32 (size obj) / 4).

(** The buffer [pre ++ w1 ++ mid ++ w2 ++ post] with the two words [w1]
    and [w2] exchanged. *)
Definition swapped (pre w1 mid w2 post : list byte) : list byte :=
  pre ++ w2 ++ mid ++ w1 ++ post.

(** The pair ([p_vaddr], [p_memsz]) of record [i] of the table at [p]. *)
Definition phdr (obj : ElfObject) (p i : Z) : Z * Z :=
  (field_u32 (data obj) (p + ELF_PHR.sizeof * i + ELF_PHR.p_vaddr),
   field_u32 (data obj) (p + ELF_PHR.sizeof * i + ELF_PHR.p_memsz)).

(** The address [e] lies in the interval [[start, start + sz)]. *)
Definition holds_entry (e : Z) (r : Z * Z) : Prop :=
  fst r <= e < fst r + snd r.

(** The address [e] passes the test of [GetTextRange], whose end of
    interval is a 32-bit sum. *)
Definition holds_entry32 (e : Z) (r : Z * Z) : Prop :=
  fst r <= e < u32 (fst r + snd r).

(** The warning of [HasValidPSXHeader] about the declared file size. *)
Definition file_size_warning (obj : ElfObject) : Diag :=
  Console_Warning
    "Incorrect file size in PS-EXE header: %u bytes should not be greater than %u bytes"
    [ArgZ (field_u32 (data obj) PSXEXEHeader.file_size);
     ArgZ (u32 (size obj - PSXEXEHeader.sizeof))].

(** ** Images used in the examples *)

Definition zeros (n : nat) : list byte := repeat Byte.x00 n.

Definition elf_header (e_entry e_phoff e_shoff e_phnum e_shnum e_shstrndx : Z)
  : list byte :=
  [Byte.x7f; Byte.x45; Byte.x4c; Byte.x46] ++ zeros 12
  ++ le_split 2 2 ++ le_split 2 8 ++ le_split 4 1
  ++ le_split 4 e_entry ++ le_split 4 e_phoff ++ le_split 4 e_shoff
  ++ le_split 4 0 ++ le_split 2 52
  ++ le_split 2 32 ++ le_split 2 e_phnum
  ++ le_split 2 40 ++ le_split 2 e_shnum ++ le_split 2 e_shstrndx.

Definition program_header (p_vaddr p_memsz : Z) : list byte :=
  le_split 4 1 ++ le_split 4 0 ++ le_split 4 p_vaddr ++ le_split 4 p_vaddr
  ++ le_split 4 p_memsz ++ le_split 4 p_memsz ++ le_split 4 5 ++ le_split 4 16.

Definition section_header (sh_name sh_type sh_offset sh_size : Z) : list byte :=
  le_split 4 sh_name ++ le_split 4 sh_type ++ le_split 4 0 ++ le_split 4 0
  ++ le_split 4 sh_offset ++ le_split 4 sh_size ++ le_split 4 0 ++ le_split 4 0
  ++ le_split 4 1 ++ le_split 4 0.

(** A console executable of 2048 bytes: the magic, the program counter
    and the declared file size, the rest zero. *)
Definition psx_exe (initial_pc file_size : Z) : list byte :=
  expected_id ++ zeros 8 ++ le_split 4 initial_pc ++ zeros 8
  ++ le_split 4 file_size ++ zeros (2048 - 32).

(** An image of 92 bytes with no program header and one section header,
    whose string-table index is 1. *)
Definition strndx_image : list byte :=
  elf_header 0x100000 0 52 0 1 1 ++ section_header 1 3 92 0.

(** An image of 84 bytes with one program header at offset 52: entry
    point [e_entry], segment at [p_vaddr] of [p_memsz] bytes. *)
Definition text_image (e_entry p_vaddr p_memsz : Z) : list byte :=
  elf_header e_entry 52 0 1 0 0 ++ program_header p_vaddr p_memsz.

(** The diagnostics of an outcome, for the examples. *)
Definition log_of {A} (r : Outcome A) : list Diag :=
  match r with
  | Ok _ l => l
  | OutOfBounds _ => []
  end.

(** The object a load of [text_image e_entry p_vaddr p_memsz] as an ELF
    gives. *)
Definition text_object (e_entry p_vaddr p_memsz : Z) : ElfObject :=
  mkElfObject (text_image e_entry p_vaddr p_memsz) (Some 52) None "a.elf" false.

(** A buffer of 2^32 bytes: the word 1, then zero bytes; and the object
    a load of it as a console executable gives. *)
Definition four_GiB_buffer : list byte :=
  [Byte.x01; Byte.x00; Byte.x00; Byte.x00] ++ zeros (Z.to_nat (2 ^ 32 - 4)).

Definition four_GiB_object : ElfObject :=
  mkElfObject four_GiB_buffer None None "big.exe" true.

(** Images with two program headers at offset 52: both records present,
    and the second record missing from the buffer. *)
Definition two_segment_object (e_entry v1 m1 v2 m2 : Z) : ElfObject :=
  mkElfObject (elf_header e_entry 52 0 2 0 0 ++ program_header v1 m1
                 ++ program_header v2 m2)
              (Some 52) None "a.elf" false.

Definition short_table_object (e_entry v1 m1 : Z) : ElfObject :=
  mkElfObject (elf_header e_entry 52 0 2 0 0 ++ program_header v1 m1)
              (Some 52) None "a.elf" false.

(** A filesystem with the one file [name], of contents [bytes]. *)
Definition one_file (name : string) (bytes : list byte) : FileSystem :=
  fun path =>
    if String.eqb path name
    then Some {| StatFile := Some (Z.of_nat (length bytes)); stream := bytes |}
    else None.

(** A disc image with the one entry [name], of contents [bytes]. *)
Definition one_entry (name : string) (bytes : list byte) : IsoReader :=
  {| LocateFile := fun path =>
       if String.eqb path name
       then Some {| lba := 24; length_le := Z.of_nat (length bytes) |}
       else None;
     ReadFile := fun de => Some bytes |}.

(** ** Definitions for the further properties *)

(** The records of a log that go to the console: everything but the
    ELF trace records. *)
Definition console (l : list Diag) : list Diag :=
  filter (fun d => match d with ELF_LOG _ _ => false | _ => true end) l.

(** A computation that writes nothing to the console. *)
Definition quiet {A} (m : Outcome A) : Prop :=
  forall a l, m = Ok a l -> console l = [].

(** The console errors of [InitElfHeaders] for a table: its offset when
    one record does not fit, and its entry size when it is not standard. *)
Definition offset_error (what : string) (num off sz len : Z) : list Diag :=
  if (num >? 0) && negb (off + sz <=? len)
  then [Console_Error what [ArgZ off; ArgZ len]] else [].

Definition entsize_error (what : string) (num entsize sz : Z) : list Diag :=
  if (num >? 0) && negb (entsize =? sz) then [Console_Error what []] else [].

(** The index of the section-header record that holds the section
    names: [e_shstrndx], or 0 when it is 0xffff. *)
Definition shstrndx (obj : ElfObject) : Z :=
  if field_u16 (data obj) ELF_HEADER.e_shstrndx =? 0xffff then 0
  else field_u16 (data obj) ELF_HEADER.e_shstrndx.

(** The byte offset of the name of section [i] of the table at [s]. *)
Definition section_name_offset (obj : ElfObject) (s i : Z) : Z :=
  field_u32 (data obj) (s + ELF_SHR.sizeof * shstrndx obj + ELF_SHR.sh_offset)
  + field_u32 (data obj) (s + ELF_SHR.sizeof * i + ELF_SHR.sh_name).

(** An image of 103 bytes with one section header, the string table
    itself: its names are at offset 92 and its own name at offset 93. *)
Definition strtab_image : list byte :=
  elf_header 0x100000 0 52 0 1 0 ++ section_header 1 3 92 11
  ++ [Byte.x00] ++ list_byte_of_string ".shstrtab" ++ [Byte.x00].

Definition strtab_object : ElfObject :=
  mkElfObject strtab_image None (Some 52) "a.elf" false.

(** * Properties *)

(** ** Outcomes and reads *)

Lemma bind_Ok_inv {A B} (m : Outcome A) (f : A -> Outcome B) b l :
  bind m f = Ok b l ->
  exists a l1 l2, m = Ok a l1 /\ f a = Ok b l2 /\ l = l1 ++ l2.
Proof.
  unfold bind. destruct m as [a l1|off]; [|discriminate].
  destruct (f a) as [b' l2|off] eqn:Hf; [|discriminate].
  intros H. inversion H; subst. exists a, l1, l2. auto.
Qed.

Lemma bind_ret_l {A B} (a : A) (f : A -> Outcome B) : bind (ret a) f = f a.
Proof. unfold bind, ret. destruct (f a); reflexivity. Qed.

Lemma read_bytes_ok data off n :
  0 <= off -> off + Z.of_nat n <= Z.of_nat (length data) ->
  read_bytes data off n = Ok (firstn n (skipn (Z.to_nat off) data)) [].
Proof.
  intros H0 H1. unfold read_bytes.
  destruct (Z.leb_spec 0 off); [|lia].
  destruct (Z.leb_spec (off + Z.of_nat n) (Z.of_nat (length data))); [|lia].
  reflexivity.
Qed.

Lemma read_bytes_inv data off n bs l :
  read_bytes data off n = Ok bs l ->
  bs = firstn n (skipn (Z.to_nat off) data) /\ l = [] /\
  0 <= off /\ off + Z.of_nat n <= Z.of_nat (length data).
Proof.
  unfold read_bytes.
  destruct (Z.leb_spec 0 off); simpl; [|discriminate].
  destruct (Z.leb_spec (off + Z.of_nat n) (Z.of_nat (length data)));
    [|discriminate].
  unfold ret. intros H1; inversion H1; subst. repeat split; auto.
Qed.

Lemma read_u32_ok data off :
  0 <= off -> off + 4 <= Z.of_nat (length data) ->
  read_u32 data off = Ok (field_u32 data off) [].
Proof.
  intros. unfold read_u32. rewrite read_bytes_ok by lia. reflexivity.
Qed.

Lemma read_u16_ok data off :
  0 <= off -> off + 2 <= Z.of_nat (length data) ->
  read_u16 data off = Ok (field_u16 data off) [].
Proof.
  intros. unfold read_u16. rewrite read_bytes_ok by lia. reflexivity.
Qed.

Lemma read_u32_inv data off v l :
  read_u32 data off = Ok v l ->
  v = field_u32 data off /\ l = [] /\
  0 <= off /\ off + 4 <= Z.of_nat (length data).
Proof.
  unfold read_u32. intros H.
  apply bind_Ok_inv in H. destruct H as (bs & l1 & l2 & Hr & Hk & ->).
  apply read_bytes_inv in Hr. destruct Hr as (-> & -> & ? & ?).
  unfold ret in Hk. inversion Hk; subst. repeat split; auto; lia.
Qed.

Lemma read_u16_inv data off v l :
  read_u16 data off = Ok v l ->
  v = field_u16 data off /\ l = [] /\
  0 <= off /\ off + 2 <= Z.of_nat (length data).
Proof.
  unfold read_u16. intros H.
  apply bind_Ok_inv in H. destruct H as (bs & l1 & l2 & Hr & Hk & ->).
  apply read_bytes_inv in Hr. destruct Hr as (-> & -> & ? & ?).
  unfold ret in Hk. inversion Hk; subst. repeat split; auto; lia.
Qed.

Lemma field_u32_range data off : 0 <= field_u32 data off < 2 ^ 32.
Proof.
  unfold field_u32.
  pose proof (le_combine_bound (firstn 4 (skipn (Z.to_nat off) data))) as H.
  pose proof (firstn_le_length 4 (skipn (Z.to_nat off) data)) as Hl.
  split; [lia|].
  eapply Z.lt_le_trans; [apply H|].
  apply Z.pow_le_mono_r; lia.
Qed.

Lemma field_u16_range data off : 0 <= field_u16 data off < 2 ^ 16.
Proof.
  unfold field_u16.
  pose proof (le_combine_bound (firstn 2 (skipn (Z.to_nat off) data))) as H.
  pose proof (firstn_le_length 2 (skipn (Z.to_nat off) data)) as Hl.
  split; [lia|].
  eapply Z.lt_le_trans; [apply H|].
  apply Z.pow_le_mono_r; lia.
Qed.

(** ** The size check *)

(** C2: the size-check rule, its cases tried in the order given: a length
    above 0x0FFFFFFF fails with TooLarge; the length -1 fails with
    NotFound; a length of at most 52, the size of the ELF header, fails
    with Truncated; every other length is accepted. *)
Theorem CheckElfSize_rule (L : Z) :
  (L > 0x0FFFFFFF -> CheckElfSize L = Rejected TooLarge) /\
  (L = -1 -> CheckElfSize L = Rejected NotFound) /\
  (L <= 52 -> L <> -1 -> CheckElfSize L = Rejected Truncated) /\
  (52 < L <= 0x0FFFFFFF -> CheckElfSize L = Accepted).
Proof.
  unfold CheckElfSize, ELF_HEADER.sizeof.
  destruct (Z.gtb_spec L 0xfffffff), (Z.eqb_spec L (-1)), (Z.leb_spec L 52);
    repeat split; intros; try reflexivity; lia.
Qed.

Lemma CheckElfSize_rule_witness :
  CheckElfSize 0x10000000 = Rejected TooLarge /\
  CheckElfSize (-1) = Rejected NotFound /\
  CheckElfSize 52 = Rejected Truncated /\
  CheckElfSize 53 = Accepted.
Proof.
  split; [apply (proj1 (CheckElfSize_rule 0x10000000)); lia|].
  split; [apply (proj1 (proj2 (CheckElfSize_rule (-1)))); reflexivity|].
  split; [apply (proj1 (proj2 (proj2 (CheckElfSize_rule 52)))); lia|].
  apply (proj2 (proj2 (proj2 (CheckElfSize_rule 53)))); lia.
Defined.

(** C3, as stated, fails at the length -1: it is at most 52 and is
    rejected with NotFound, not with Truncated. *)
Lemma CheckElfSize_minus_one_not_Truncated :
  -1 <= 52 /\ CheckElfSize (-1) = Rejected NotFound /\
  CheckElfSize (-1) <> Rejected Truncated.
Proof. repeat split; [lia | discriminate]. Qed.

(** C3 (amended): every length L <= 52 other than -1 is rejected by the
    size check with Truncated. *)
Theorem CheckElfSize_Truncated (L : Z) :
  L <= 52 -> L <> -1 -> CheckElfSize L = Rejected Truncated.
Proof.
  intros Hle Hne. unfold CheckElfSize, ELF_HEADER.sizeof.
  destruct (Z.gtb_spec L 0xfffffff); [lia|].
  destruct (Z.eqb_spec L (-1)); [contradiction|].
  destruct (Z.leb_spec L 52); [reflexivity|lia].
Qed.

Lemma CheckElfSize_Truncated_witness :
  52 <= 52 /\ 52 <> -1 /\ CheckElfSize 52 = Rejected Truncated.
Proof.
  split; [lia|]. split; [lia|].
  apply (CheckElfSize_Truncated 52); lia.
Defined.

(** ** The PS-X EXE header *)

Lemma bind_Ok_nil {A B} (a : A) (f : A -> Outcome B) : bind (Ok a []) f = f a.
Proof. apply bind_ret_l. Qed.

Lemma HasValidPSXHeader_short obj :
  size obj < 2048 -> HasValidPSXHeader obj = Ok false [].
Proof.
  intros H. unfold HasValidPSXHeader, PSXEXEHeader.sizeof.
  destruct (Z.ltb_spec (size obj) 0x800); [reflexivity|lia].
Qed.

Lemma HasValidPSXHeader_bad_id obj :
  firstn 8 (data obj) <> expected_id -> HasValidPSXHeader obj = Ok false [].
Proof.
  intros H. unfold HasValidPSXHeader, PSXEXEHeader.sizeof, PSXEXEHeader.id.
  destruct (Z.ltb_spec (size obj) 0x800) as [Hs|Hs]; [reflexivity|].
  unfold size in Hs.
  rewrite read_bytes_ok by (simpl; lia).
  rewrite bind_Ok_nil. simpl skipn.
  destruct (list_eq_dec Byte.byte_eq_dec (firstn 8 (data obj)) expected_id);
    [contradiction|reflexivity].
Qed.

Lemma HasValidPSXHeader_good obj :
  2048 <= size obj -> firstn 8 (data obj) = expected_id ->
  HasValidPSXHeader obj =
  Ok true (if field_u32 (data obj) PSXEXEHeader.file_size + 2048 >? size obj
           then [file_size_warning obj] else []).
Proof.
  intros Hs Hid.
  unfold HasValidPSXHeader, PSXEXEHeader.sizeof, PSXEXEHeader.id.
  destruct (Z.ltb_spec (size obj) 0x800) as [Hs'|Hs']; [lia|].
  unfold size in Hs'.
  rewrite read_bytes_ok by (simpl; lia).
  rewrite bind_Ok_nil. simpl skipn.
  destruct (list_eq_dec Byte.byte_eq_dec (firstn 8 (data obj)) expected_id);
    [|contradiction].
  simpl negb. cbv iota.
  rewrite read_u32_ok by (unfold PSXEXEHeader.file_size; lia).
  rewrite bind_Ok_nil.
  unfold file_size_warning, PSXEXEHeader.sizeof.
  destruct (field_u32 (data obj) PSXEXEHeader.file_size + 2048 >? size obj);
    reflexivity.
Qed.

(** C6: [HasValidPSXHeader] returns false when the buffer has fewer than
    2048 bytes, returns false when the first 8 bytes are not "PS-X EXE",
    and returns true otherwise; when the declared file size plus 2048
    exceeds the buffer length it still returns true, and only a warning
    is emitted. *)
Theorem HasValidPSXHeader_spec (obj : ElfObject) :
  (size obj < 2048 -> HasValidPSXHeader obj = Ok false []) /\
  (firstn 8 (data obj) <> list_byte_of_string "PS-X EXE" ->
   HasValidPSXHeader obj = Ok false []) /\
  (2048 <= size obj -> firstn 8 (data obj) = list_byte_of_string "PS-X EXE" ->
   (field_u32 (data obj) 0x1C + 2048 > size obj ->
    HasValidPSXHeader obj = Ok true [file_size_warning obj]) /\
   (field_u32 (data obj) 0x1C + 2048 <= size obj ->
    HasValidPSXHeader obj = Ok true [])).
Proof.
  split; [apply HasValidPSXHeader_short|].
  split; [apply HasValidPSXHeader_bad_id|].
  intros Hs Hid. rewrite (HasValidPSXHeader_good obj Hs Hid).
  change PSXEXEHeader.file_size with 0x1C.
  destruct (Z.gtb_spec (field_u32 (data obj) 0x1C + 2048) (size obj));
    split; intros; try reflexivity; lia.
Qed.

Lemma HasValidPSXHeader_spec_witness :
  2048 <= size (mkElfObject (psx_exe 0x80010000 0x1000) None None "PSX.EXE" true) /\
  field_u32 (psx_exe 0x80010000 0x1000) 0x1C + 2048
  > size (mkElfObject (psx_exe 0x80010000 0x1000) None None "PSX.EXE" true) /\
  HasValidPSXHeader (mkElfObject (psx_exe 0x80010000 0x1000) None None "PSX.EXE" true)
  = Ok true
       [file_size_warning
          (mkElfObject (psx_exe 0x80010000 0x1000) None None "PSX.EXE" true)].
Proof.
  assert (Hs : 2048 <= size (mkElfObject (psx_exe 0x80010000 0x1000)
                                         None None "PSX.EXE" true))
    by (vm_compute; discriminate).
  assert (Hf : field_u32 (psx_exe 0x80010000 0x1000) 0x1C + 2048
               > size (mkElfObject (psx_exe 0x80010000 0x1000)
                                   None None "PSX.EXE" true))
    by (vm_compute; reflexivity).
  split; [exact Hs|]. split; [exact Hf|].
  exact (proj1 (proj2 (proj2 (HasValidPSXHeader_spec
                                (mkElfObject (psx_exe 0x80010000 0x1000)
                                             None None "PSX.EXE" true)))
                      Hs eq_refl) Hf).
Defined.

(** ** The entry point *)

Lemma HasValidPSXHeader_total obj :
  exists valid log,
    HasValidPSXHeader obj = Ok valid log /\ (valid = true -> 2048 <= size obj).
Proof.
  destruct (Z.lt_ge_cases (size obj) 2048) as [Hs|Hs].
  - exists false, []. split; [apply HasValidPSXHeader_short; assumption|discriminate].
  - destruct (list_eq_dec Byte.byte_eq_dec (firstn 8 (data obj)) expected_id)
      as [Hid|Hid].
    + eexists true, _. split; [apply HasValidPSXHeader_good; assumption|auto].
    + exists false, []. split; [apply HasValidPSXHeader_bad_id; assumption|discriminate].
Qed.

(** C5: on a console executable [GetEntryPoint] returns the [initial_pc]
    field of the header when [HasValidPSXHeader] is true and 0xFFFFFFFF
    when it is false, and [HasValidPSXHeader] always gives one of the two;
    on an ELF image it returns the [e_entry] field of the header,
    whatever the rest of the image is. *)
Theorem GetEntryPoint_spec (obj : ElfObject) :
  (isPSXElf obj = true ->
   exists valid log,
     HasValidPSXHeader obj = Ok valid log /\
     GetEntryPoint obj =
     Ok (if valid then field_u32 (data obj) 0x10 else 0xFFFFFFFF) log) /\
  (isPSXElf obj = false ->
   GetEntryPoint obj = read_u32 (data obj) 24 /\
   (28 <= size obj -> GetEntryPoint obj = Ok (field_u32 (data obj) 24) [])).
Proof.
  split.
  - intros Hpsx.
    destruct (HasValidPSXHeader_total obj) as (valid & log & Hv & Hsz).
    exists valid, log. split; [assumption|].
    unfold GetEntryPoint. rewrite Hpsx, Hv.
    destruct valid.
    + specialize (Hsz eq_refl). unfold size in Hsz.
      unfold bind. rewrite read_u32_ok by (unfold PSXEXEHeader.initial_pc; lia).
      rewrite app_nil_r. reflexivity.
    + unfold bind, ret. rewrite app_nil_r. reflexivity.
  - intros Helf. unfold GetEntryPoint, header_u32. rewrite Helf.
    change ELF_HEADER.e_entry with 24. split; [reflexivity|].
    intros Hs. unfold size in Hs. apply read_u32_ok; lia.
Qed.

Lemma GetEntryPoint_spec_witness :
  (exists valid log,
     HasValidPSXHeader
       (mkElfObject (psx_exe 0x80010000 0) None None "PSX.EXE" true)
     = Ok valid log /\
     GetEntryPoint (mkElfObject (psx_exe 0x80010000 0) None None "PSX.EXE" true)
     = Ok (if valid then field_u32 (psx_exe 0x80010000 0) 0x10 else 0xFFFFFFFF)
          log) /\
  GetEntryPoint (text_object 0x100010 0x100000 0x2000)
  = Ok (field_u32 (text_image 0x100010 0x100000 0x2000) 24) [].
Proof.
  split.
  - exact (proj1 (GetEntryPoint_spec
                    (mkElfObject (psx_exe 0x80010000 0) None None "PSX.EXE" true))
                 eq_refl).
  - apply (proj2 (proj2 (GetEntryPoint_spec (text_object 0x100010 0x100000 0x2000))
                        eq_refl)).
    vm_compute. discriminate.
Defined.

(** The console executable of 2048 bytes with the magic and the program
    counter 0x80010000, and the same with byte 3 of the magic corrupted. *)
Example GetEntryPoint_console_executable :
  GetEntryPoint (mkElfObject (psx_exe 0x80010000 0) None None "PSX.EXE" true)
  = Ok 0x80010000 [] /\
  GetEntryPoint
    (mkElfObject (firstn 3 (psx_exe 0x80010000 0) ++ Byte.x00
                    :: skipn 4 (psx_exe 0x80010000 0))
                 None None "PSX.EXE" true)
  = Ok 0xFFFFFFFF [].
Proof. split; vm_compute; reflexivity. Qed.

(** ** Loading from a disc image *)

Lemma OpenIsoFile_rejected trace obj srcfile isor isPSXElf_ de e :
  LocateFile isor srcfile = Some de ->
  CheckElfSize (length_le de) = Rejected e ->
  OpenIsoFile trace obj srcfile isor isPSXElf_ = Ok (Failed e) [].
Proof. intros Hl Hc. unfold OpenIsoFile. rewrite Hl, Hc. reflexivity. Qed.

(** C1: [OpenIsoFile] applies the size check to the length of the located
    entry also when the load is a console-executable load: a 40-byte
    entry loaded as a console executable is rejected with Truncated by
    the load from a disc image, while the load from a file, which skips
    the check for console executables, loads the same bytes. *)
Theorem OpenIsoFile_checks_console_executable (trace : bool) :
  OpenIsoFile trace ElfObject_ctor "PSX.EXE" (one_entry "PSX.EXE" (zeros 40)) true
  = Ok (Failed Truncated) [] /\
  OpenFile trace ElfObject_ctor "PSX.EXE" true (one_file "PSX.EXE" (zeros 40))
  = Ok (Loaded (mkElfObject (zeros 40) None None "PSX.EXE" true)) [].
Proof. split; reflexivity. Qed.

(** ** The header dump *)

(** C10: the section-header walk reads through the string-table index
    without a bounds check.  A 92-byte image with one section header at
    offset 52 and [e_shstrndx = 1] loads, and the dump then reads
    [secthead[1].sh_offset] at byte offset 108, past the buffer. *)
Theorem LoadHeaders_reads_past_buffer (trace : bool) :
  (exists log,
     OpenFile trace ElfObject_ctor "a.elf" false (one_file "a.elf" strndx_image)
     = Ok (Loaded (mkElfObject strndx_image None (Some 52) "a.elf" false)) log) /\
  size (mkElfObject strndx_image None (Some 52) "a.elf" false) = 92 /\
  LoadHeaders trace (mkElfObject strndx_image None (Some 52) "a.elf" false)
  = OutOfBounds 108.
Proof.
  destruct trace; (split; [eexists; vm_compute; reflexivity|]);
    split; vm_compute; reflexivity.
Qed.

(** ** Header initialisation *)

Ltac inv_ret H :=
  unfold ret in H; inversion H; subst; clear H.

Ltac inv_bind H a Hm :=
  let l1 := fresh "l" in
  let l2 := fresh "l" in
  let Hl := fresh "Hl" in
  apply bind_Ok_inv in H; destruct H as (a & l1 & l2 & Hm & H & Hl).

Ltac inv_binds H :=
  repeat (let a := fresh "a" in let Hm := fresh "Hm" in inv_bind H a Hm).

(** What [InitElfHeaders] leaves in the object when it runs to its end:
    the buffer, name and format are untouched, and each view is set from
    the header exactly when its count is positive and one record fits. *)
Lemma InitElfHeaders_inv trace obj0 obj log :
  InitElfHeaders trace obj0 = Ok obj log ->
  data obj = data obj0 /\ isPSXElf obj = isPSXElf obj0 /\
  filename obj = filename obj0 /\
  (isPSXElf obj0 = true ->
   proghead obj = proghead obj0 /\ secthead obj = secthead obj0) /\
  (isPSXElf obj0 = false ->
   proghead obj =
     (if (field_u16 (data obj0) ELF_HEADER.e_phnum >? 0)
         && (field_u32 (data obj0) ELF_HEADER.e_phoff + ELF_PHR.sizeof <=? size obj0)
      then Some (field_u32 (data obj0) ELF_HEADER.e_phoff) else proghead obj0) /\
   secthead obj =
     (if (field_u16 (data obj0) ELF_HEADER.e_shnum >? 0)
         && (field_u32 (data obj0) ELF_HEADER.e_shoff + ELF_SHR.sizeof <=? size obj0)
      then Some (field_u32 (data obj0) ELF_HEADER.e_shoff) else secthead obj0)).
Proof.
  unfold InitElfHeaders. intros H.
  destruct (isPSXElf obj0) eqn:Hpsx.
  - inv_ret H. repeat split; auto; discriminate.
  - inv_bind H u Hu. clear Hu.
    inv_bind H e_phnum Hphnum.
    inv_bind H obj1 Hobj1.
    inv_bind H e_shnum Hshnum.
    inv_bind H obj2 Hobj2.
    inv_binds H. inv_ret H.
    apply read_u16_inv in Hphnum. destruct Hphnum as (-> & _).
    apply read_u16_inv in Hshnum. destruct Hshnum as (-> & _).
    assert (Hp : obj1 =
                 if (field_u16 (data obj0) ELF_HEADER.e_phnum >? 0)
                    && (field_u32 (data obj0) ELF_HEADER.e_phoff + ELF_PHR.sizeof
                        <=? size obj0)
                 then set_proghead obj0 (Some (field_u32 (data obj0) ELF_HEADER.e_phoff))
                 else obj0).
    { destruct (field_u16 (data obj0) ELF_HEADER.e_phnum >? 0); simpl.
      - inv_bind Hobj1 e_phoff Hphoff.
        apply read_u32_inv in Hphoff. destruct Hphoff as (-> & _).
        destruct (field_u32 (data obj0) ELF_HEADER.e_phoff + ELF_PHR.sizeof
                  <=? size obj0).
        + inv_ret Hobj1. reflexivity.
        + inv_binds Hobj1. inv_ret Hobj1. reflexivity.
      - inv_ret Hobj1. reflexivity. }
    assert (Hs : obj =
                 if (field_u16 (data obj0) ELF_HEADER.e_shnum >? 0)
                    && (field_u32 (data obj0) ELF_HEADER.e_shoff + ELF_SHR.sizeof
                        <=? size obj0)
                 then set_secthead obj1 (Some (field_u32 (data obj0) ELF_HEADER.e_shoff))
                 else obj1).
    { destruct (field_u16 (data obj0) ELF_HEADER.e_shnum >? 0); simpl.
      - inv_bind Hobj2 e_shoff Hshoff.
        apply read_u32_inv in Hshoff. destruct Hshoff as (-> & _).
        destruct (field_u32 (data obj0) ELF_HEADER.e_shoff + ELF_SHR.sizeof
                  <=? size obj0).
        + inv_ret Hobj2. reflexivity.
        + inv_binds Hobj2. inv_ret Hobj2. reflexivity.
      - inv_ret Hobj2. reflexivity. }
    rewrite Hs, Hp.
    destruct ((field_u16 (data obj0) ELF_HEADER.e_phnum >? 0)
              && (field_u32 (data obj0) ELF_HEADER.e_phoff + ELF_PHR.sizeof
                  <=? size obj0));
      destruct ((field_u16 (data obj0) ELF_HEADER.e_shnum >? 0)
                && (field_u32 (data obj0) ELF_HEADER.e_shoff + ELF_SHR.sizeof
                    <=? size obj0));
      simpl; repeat split; auto; discriminate.
Qed.

Lemma succeeds_ret {A} (a : A) : succeeds (ret a).
Proof. exists a, []. reflexivity. Qed.

Lemma succeeds_emit d : succeeds (emit d).
Proof. exists tt, [d]. reflexivity. Qed.

Lemma succeeds_bind {A B} (m : Outcome A) (f : A -> Outcome B) :
  succeeds m -> (forall a, succeeds (f a)) -> succeeds (bind m f).
Proof.
  intros (a & l & ->) Hf. destruct (Hf a) as (b & l' & Hb).
  exists b, (l ++ l'). unfold bind. rewrite Hb. reflexivity.
Qed.

Lemma succeeds_when b m : succeeds m -> succeeds (when b m).
Proof. intros H. destruct b; [exact H|apply succeeds_ret]. Qed.

Lemma succeeds_elf_log trace fmt args :
  succeeds args -> succeeds (elf_log trace fmt args).
Proof.
  intros H. unfold elf_log. destruct trace; [|apply succeeds_ret].
  apply succeeds_bind; [exact H|intros; apply succeeds_emit].
Qed.

Lemma succeeds_arg m : succeeds m -> succeeds (arg m).
Proof.
  intros H. unfold arg. apply succeeds_bind; [exact H|intros; apply succeeds_ret].
Qed.

Lemma succeeds_header_u16 obj field :
  0 <= field -> field + 2 <= size obj -> succeeds (header_u16 obj field).
Proof.
  intros. unfold header_u16. rewrite read_u16_ok by assumption.
  eexists _, _. reflexivity.
Qed.

Lemma succeeds_header_u32 obj field :
  0 <= field -> field + 4 <= size obj -> succeeds (header_u32 obj field).
Proof.
  intros. unfold header_u32. rewrite read_u32_ok by assumption.
  eexists _, _. reflexivity.
Qed.

Create HintDb succeeds.
#[local] Hint Resolve succeeds_ret succeeds_emit succeeds_when succeeds_elf_log
  succeeds_arg : succeeds.

Ltac header_field :=
  first [apply succeeds_header_u16 | apply succeeds_header_u32];
  cbv [ELF_HEADER.e_type ELF_HEADER.e_machine ELF_HEADER.e_version
       ELF_HEADER.e_entry ELF_HEADER.e_phoff ELF_HEADER.e_shoff
       ELF_HEADER.e_flags ELF_HEADER.e_ehsize ELF_HEADER.e_phentsize
       ELF_HEADER.e_phnum ELF_HEADER.e_shentsize ELF_HEADER.e_shnum
       ELF_HEADER.e_shstrndx]; lia.

Ltac succeeds_step :=
  match goal with
  | |- succeeds (bind _ _) => apply succeeds_bind; [|intros]
  | |- succeeds (if ?c then _ else _) => destruct c
  | |- succeeds (header_u16 _ _) => header_field
  | |- succeeds (header_u32 _ _) => header_field
  | |- succeeds (elf_log _ _ _) => apply succeeds_elf_log
  | |- succeeds (arg _) => apply succeeds_arg
  | |- succeeds (text _) => apply succeeds_ret
  | |- succeeds no_args => apply succeeds_ret
  | |- succeeds _ => solve [auto with succeeds]
  end.

Lemma InitElfHeaders_succeeds trace obj :
  isPSXElf obj = true \/ ELF_HEADER.sizeof <= size obj ->
  succeeds (InitElfHeaders trace obj).
Proof.
  intros H. unfold InitElfHeaders.
  destruct (isPSXElf obj); [apply succeeds_ret|].
  destruct H as [H|H]; [discriminate|]. unfold ELF_HEADER.sizeof in H.
  repeat succeeds_step.
Qed.

Lemma fresh_load_inv trace bytes srcfile isPSXElf_ obj log :
  (obj' <- InitElfHeaders trace (mkElfObject bytes None None srcfile isPSXElf_) ;;
   ret (Loaded obj')) = Ok (Loaded obj) log ->
  data obj = bytes /\ isPSXElf obj = isPSXElf_ /\
  (isPSXElf_ = true -> proghead obj = None /\ secthead obj = None) /\
  (isPSXElf_ = false ->
   proghead obj =
     (if (field_u16 bytes ELF_HEADER.e_phnum >? 0)
         && (field_u32 bytes ELF_HEADER.e_phoff + ELF_PHR.sizeof
             <=? Z.of_nat (length bytes))
      then Some (field_u32 bytes ELF_HEADER.e_phoff) else None) /\
   secthead obj =
     (if (field_u16 bytes ELF_HEADER.e_shnum >? 0)
         && (field_u32 bytes ELF_HEADER.e_shoff + ELF_SHR.sizeof
             <=? Z.of_nat (length bytes))
      then Some (field_u32 bytes ELF_HEADER.e_shoff) else None)).
Proof.
  intros H. inv_bind H obj' Hinit. inv_ret H.
  apply InitElfHeaders_inv in Hinit. simpl in Hinit.
  destruct Hinit as (Hd & Hp & _ & Hpsx & Helf).
  repeat split; auto; try (apply Hpsx; assumption); apply Helf; assumption.
Qed.

Lemma OpenFile_inv trace srcfile isPSXElf_ fs obj log :
  OpenFile trace ElfObject_ctor srcfile isPSXElf_ fs = Ok (Loaded obj) log ->
  exists bytes,
    (obj' <- InitElfHeaders trace (mkElfObject bytes None None srcfile isPSXElf_) ;;
     ret (Loaded obj')) = Ok (Loaded obj) log /\
    (isPSXElf_ = false -> ELF_HEADER.sizeof < Z.of_nat (length bytes) <= 0xfffffff).
Proof.
  unfold OpenFile. simpl.
  destruct (fs srcfile) as [fp|]; [|discriminate].
  destruct (StatFile fp) as [sd_Size|]; [|discriminate].
  destruct (if isPSXElf_ then Accepted else CheckElfSize sd_Size) eqn:Hc;
    [|discriminate].
  destruct (fread fp (size_t sd_Size)) as [bytes|] eqn:Hr; [|discriminate].
  intros H. exists bytes. split; [exact H|].
  intros ->. unfold CheckElfSize in Hc.
  destruct (Z.gtb_spec sd_Size 0xfffffff); [discriminate|].
  destruct (Z.eqb_spec sd_Size (-1)); [discriminate|].
  destruct (Z.leb_spec sd_Size ELF_HEADER.sizeof); [discriminate|].
  unfold fread in Hr.
  destruct ((0 <? size_t sd_Size)
            && (size_t sd_Size <=? Z.of_nat (length (stream fp)))) eqn:Hb;
    [|discriminate].
  apply andb_prop in Hb. destruct Hb as (Hb1 & Hb2).
  apply Z.leb_le in Hb2.
  inversion Hr; subst bytes. rewrite length_firstn.
  unfold ELF_HEADER.sizeof in *.
  assert (Hsz : size_t sd_Size = sd_Size)
    by (unfold size_t; apply Z.mod_small; lia).
  rewrite Hsz in *. lia.
Qed.

Lemma OpenIsoFile_inv trace srcfile isor isPSXElf_ obj log :
  OpenIsoFile trace ElfObject_ctor srcfile isor isPSXElf_ = Ok (Loaded obj) log ->
  exists bytes,
    (obj' <- InitElfHeaders trace (mkElfObject bytes None None srcfile isPSXElf_) ;;
     ret (Loaded obj')) = Ok (Loaded obj) log.
Proof.
  unfold OpenIsoFile. simpl.
  destruct (LocateFile isor srcfile) as [de|]; [|discriminate].
  destruct (CheckElfSize (length_le de)); [|discriminate].
  destruct (ReadFile isor de) as [bytes|]; [|discriminate].
  intros H. exists bytes. exact H.
Qed.

(** A load from a file never reads outside the buffer. *)
Lemma OpenFile_succeeds trace obj srcfile isPSXElf_ fs :
  succeeds (OpenFile trace obj srcfile isPSXElf_ fs).
Proof.
  unfold OpenFile.
  destruct (fs srcfile) as [fp|]; [|apply succeeds_ret].
  destruct (StatFile fp) as [sd_Size|]; [|apply succeeds_ret].
  destruct (if isPSXElf_ then Accepted else CheckElfSize sd_Size) eqn:Hc;
    [|apply succeeds_ret].
  destruct (fread fp (size_t sd_Size)) as [bytes|] eqn:Hr; [|apply succeeds_ret].
  apply succeeds_bind; [|intros; apply succeeds_ret].
  apply InitElfHeaders_succeeds. cbn [isPSXElf].
  destruct isPSXElf_; [left; reflexivity|right].
  unfold CheckElfSize in Hc.
  destruct (Z.gtb_spec sd_Size 0xfffffff); [discriminate|].
  destruct (Z.eqb_spec sd_Size (-1)); [discriminate|].
  destruct (Z.leb_spec sd_Size ELF_HEADER.sizeof); [discriminate|].
  unfold fread in Hr.
  destruct ((0 <? size_t sd_Size)
            && (size_t sd_Size <=? Z.of_nat (length (stream fp)))) eqn:Hb;
    [|discriminate].
  apply andb_prop in Hb. destruct Hb as (Hb1 & Hb2). apply Z.leb_le in Hb2.
  inversion Hr; subst bytes. unfold size. cbn [data]. rewrite length_firstn.
  unfold ELF_HEADER.sizeof in *.
  assert (Hsz : size_t sd_Size = sd_Size)
    by (unfold size_t; apply Z.mod_small; lia).
  rewrite Hsz in *. lia.
Qed.

(** A load from a disc image never reads outside the buffer, when
    [ReadFile] delivers as many bytes as the entry declares. *)
Lemma OpenIsoFile_succeeds trace obj srcfile isor isPSXElf_ :
  (forall de bytes,
     ReadFile isor de = Some bytes -> Z.of_nat (length bytes) = length_le de) ->
  succeeds (OpenIsoFile trace obj srcfile isor isPSXElf_).
Proof.
  intros Hfull. unfold OpenIsoFile.
  destruct (LocateFile isor srcfile) as [de|]; [|apply succeeds_ret].
  destruct (CheckElfSize (length_le de)) eqn:Hc; [|apply succeeds_ret].
  destruct (ReadFile isor de) as [bytes|] eqn:Hr; [|apply succeeds_ret].
  apply succeeds_bind; [|intros; apply succeeds_ret].
  apply InitElfHeaders_succeeds. right. unfold size. cbn [data].
  rewrite (Hfull de bytes Hr).
  unfold CheckElfSize in Hc.
  destruct (Z.gtb_spec (length_le de) 0xfffffff); [discriminate|].
  destruct (Z.eqb_spec (length_le de) (-1)); [discriminate|].
  destruct (Z.leb_spec (length_le de) ELF_HEADER.sizeof); [discriminate|].
  lia.
Qed.

Lemma load_inv_absent trace obj0 srcfile isPSXElf_ fs isor obj log :
  proghead obj0 = None -> secthead obj0 = None ->
  OpenFile trace obj0 srcfile isPSXElf_ fs = Ok (Loaded obj) log \/
  OpenIsoFile trace obj0 srcfile isor isPSXElf_ = Ok (Loaded obj) log ->
  exists bytes,
    (obj' <- InitElfHeaders trace
               (mkElfObject bytes None None srcfile isPSXElf_) ;;
     ret (Loaded obj')) = Ok (Loaded obj) log.
Proof.
  intros Hp Hs [H|H].
  - unfold OpenFile in H. rewrite Hp, Hs in H.
    destruct (fs srcfile) as [fp|]; [|discriminate].
    destruct (StatFile fp) as [sd_Size|]; [|discriminate].
    destruct (if isPSXElf_ then Accepted else CheckElfSize sd_Size);
      [|discriminate].
    destruct (fread fp (size_t sd_Size)) as [bytes|]; [|discriminate].
    exists bytes. exact H.
  - unfold OpenIsoFile in H. rewrite Hp, Hs in H.
    destruct (LocateFile isor srcfile) as [de|]; [|discriminate].
    destruct (CheckElfSize (length_le de)); [|discriminate].
    destruct (ReadFile isor de) as [bytes|]; [|discriminate].
    exists bytes. exact H.
Qed.

(** C9, as stated, fails for a second load into the same object: an ELF
    image with a program header is loaded, then a console executable is
    loaded into the object; both loads succeed, and after the
    console-executable load the program-header view is still present and
    [HasProgramHeaders] is true. *)
Lemma console_load_after_ELF_load_has_view :
  exists o1 log1 o2,
    OpenFile false ElfObject_ctor "a.elf" false
             (one_file "a.elf" (text_image 0x100010 0x100000 0x2000))
    = Ok (Loaded o1) log1 /\
    OpenFile false o1 "PSX.EXE" true (one_file "PSX.EXE" (psx_exe 0x80010000 0))
    = Ok (Loaded o2) [] /\
    isPSXElf o2 = true /\ proghead o2 <> None /\ HasProgramHeaders o2 = true.
Proof.
  exists (text_object 0x100010 0x100000 0x2000),
         [DevCon_WriteLn "Initializing Elf: %zu bytes" [ArgZ 84]],
         (mkElfObject (psx_exe 0x80010000 0) (Some 52) None "PSX.EXE" true).
  split; [vm_compute; reflexivity|]. split; [vm_compute; reflexivity|].
  split; [reflexivity|]. split; [discriminate|reflexivity].
Qed.

(** C9 (amended): after a successful load, by [OpenFile] or by
    [OpenIsoFile], into an object whose views are both absent before the
    load (a newly constructed object), a view that is set points at the
    table offset of the header, its count is not zero, and one record (32
    bytes for program headers, 40 for section headers) from that offset
    ends within the buffer; for an ELF load a view is set whenever these
    hold; after a console-executable load both views are absent; and
    [HasProgramHeaders], [HasSectionHeaders] and [HasHeaders] report the
    presence of the views. *)
Theorem loaded_views_in_bounds trace obj0 srcfile isPSXElf_ fs isor obj log :
  proghead obj0 = None -> secthead obj0 = None ->
  OpenFile trace obj0 srcfile isPSXElf_ fs = Ok (Loaded obj) log \/
  OpenIsoFile trace obj0 srcfile isor isPSXElf_ = Ok (Loaded obj) log ->
  isPSXElf obj = isPSXElf_ /\
  (forall p, proghead obj = Some p ->
     field_u16 (data obj) ELF_HEADER.e_phnum <> 0 /\
     p = field_u32 (data obj) ELF_HEADER.e_phoff /\
     0 <= p /\ p + 32 <= size obj) /\
  (forall s, secthead obj = Some s ->
     field_u16 (data obj) ELF_HEADER.e_shnum <> 0 /\
     s = field_u32 (data obj) ELF_HEADER.e_shoff /\
     0 <= s /\ s + 40 <= size obj) /\
  (isPSXElf_ = false ->
   field_u16 (data obj) ELF_HEADER.e_phnum <> 0 ->
   field_u32 (data obj) ELF_HEADER.e_phoff + 32 <= size obj ->
   proghead obj = Some (field_u32 (data obj) ELF_HEADER.e_phoff)) /\
  (isPSXElf_ = false ->
   field_u16 (data obj) ELF_HEADER.e_shnum <> 0 ->
   field_u32 (data obj) ELF_HEADER.e_shoff + 40 <= size obj ->
   secthead obj = Some (field_u32 (data obj) ELF_HEADER.e_shoff)) /\
  (isPSXElf_ = true -> proghead obj = None /\ secthead obj = None) /\
  (HasProgramHeaders obj = true <-> proghead obj <> None) /\
  (HasSectionHeaders obj = true <-> secthead obj <> None) /\
  (HasHeaders obj = true <-> proghead obj <> None /\ secthead obj <> None).
Proof.
  intros Hp0 Hs0 H.
  destruct (load_inv_absent trace obj0 srcfile isPSXElf_ fs isor obj log
              Hp0 Hs0 H) as (bytes & Hb).
  apply fresh_load_inv in Hb.
  destruct Hb as (Hd & Hfmt & Hpsx & Helf).
  unfold size, ELF_PHR.sizeof, ELF_SHR.sizeof in *. rewrite Hd.
  pose proof (field_u16_range bytes ELF_HEADER.e_phnum) as Rp.
  pose proof (field_u16_range bytes ELF_HEADER.e_shnum) as Rs.
  pose proof (field_u32_range bytes ELF_HEADER.e_phoff) as Rpo.
  pose proof (field_u32_range bytes ELF_HEADER.e_shoff) as Rso.
  split; [assumption|].
  destruct isPSXElf_.
  - destruct (Hpsx eq_refl) as (Hp & Hs).
    unfold HasHeaders, HasProgramHeaders, HasSectionHeaders. rewrite Hp, Hs.
    repeat split; try discriminate; try congruence; intros; tauto.
  - destruct (Helf eq_refl) as (Hp & Hs). clear Hpsx Helf.
    unfold HasHeaders, HasProgramHeaders, HasSectionHeaders. rewrite Hp, Hs.
    destruct (Z.gtb_spec (field_u16 bytes ELF_HEADER.e_phnum) 0);
      destruct (Z.leb_spec (field_u32 bytes ELF_HEADER.e_phoff + 32)
                           (Z.of_nat (length bytes)));
      destruct (Z.gtb_spec (field_u16 bytes ELF_HEADER.e_shnum) 0);
      destruct (Z.leb_spec (field_u32 bytes ELF_HEADER.e_shoff + 40)
                           (Z.of_nat (length bytes)));
      simpl; repeat split; intros;
      try discriminate; try congruence; try lia; try tauto;
      try (match goal with H : Some _ = Some _ |- _ => inversion H; subst end; lia).
Qed.

Lemma loaded_views_in_bounds_witness :
  proghead ElfObject_ctor = None /\ secthead ElfObject_ctor = None /\
  OpenFile true ElfObject_ctor "a.elf" false
           (one_file "a.elf" (text_image 0x100010 0x100000 0x2000))
  = Ok (Loaded (mkElfObject (text_image 0x100010 0x100000 0x2000)
                            (Some 52) None "a.elf" false))
       (log_of (OpenFile true ElfObject_ctor "a.elf" false
                  (one_file "a.elf" (text_image 0x100010 0x100000 0x2000)))) /\
  (forall p,
     proghead (mkElfObject (text_image 0x100010 0x100000 0x2000)
                           (Some 52) None "a.elf" false) = Some p ->
     p + 32 <= size (mkElfObject (text_image 0x100010 0x100000 0x2000)
                                 (Some 52) None "a.elf" false)).
Proof.
  assert (H : OpenFile true ElfObject_ctor "a.elf" false
                (one_file "a.elf" (text_image 0x100010 0x100000 0x2000))
              = Ok (Loaded (mkElfObject (text_image 0x100010 0x100000 0x2000)
                                        (Some 52) None "a.elf" false))
                   (log_of (OpenFile true ElfObject_ctor "a.elf" false
                              (one_file "a.elf"
                                 (text_image 0x100010 0x100000 0x2000)))))
    by (vm_compute; reflexivity).
  split; [reflexivity|]. split; [reflexivity|]. split; [exact H|].
  intros p Hp.
  apply (loaded_views_in_bounds true ElfObject_ctor "a.elf" false
           (one_file "a.elf" (text_image 0x100010 0x100000 0x2000))
           (one_entry "a.elf" []) _ _ eq_refl eq_refl (or_introl H)).
  exact Hp.
Defined.

(** ** The text range *)

Lemma text_test_spec e start sz :
  (start <=? e) && (u32 (start + sz) >? e) = true <-> holds_entry32 e (start, sz).
Proof.
  unfold holds_entry32. simpl. rewrite andb_true_iff, Z.leb_le, Z.gtb_ltb, Z.ltb_lt.
  tauto.
Qed.

(** On 32-bit values the test of [GetTextRange] implies membership in the
    interval, and is equivalent to it when the end of the interval is
    below 2^32. *)
Lemma holds_entry32_holds_entry e start sz :
  0 <= start < 2 ^ 32 -> 0 <= sz < 2 ^ 32 -> 0 <= e < 2 ^ 32 ->
  holds_entry32 e (start, sz) -> holds_entry e (start, sz).
Proof.
  unfold holds_entry32, holds_entry, u32. simpl. intros Hs Hz He (H1 & H2).
  split; [assumption|].
  destruct (Z.lt_ge_cases (start + sz) (2 ^ 32)) as [Hlt|Hge].
  - rewrite Z.mod_small in H2 by lia. assumption.
  - lia.
Qed.

Lemma holds_entry_holds_entry32 e start sz :
  0 <= start -> 0 <= sz -> start + sz < 2 ^ 32 ->
  holds_entry e (start, sz) -> holds_entry32 e (start, sz).
Proof.
  unfold holds_entry32, holds_entry, u32. simpl. intros Hs Hz Hlt (H1 & H2).
  rewrite Z.mod_small by lia. lia.
Qed.

Lemma GetTextRange_loop_spec obj p n : forall i,
  0 <= p -> 0 <= i -> 28 <= size obj ->
  p + 32 * (i + Z.of_nat n) <= size obj ->
  (exists k,
     i <= k < i + Z.of_nat n /\
     holds_entry32 (field_u32 (data obj) ELF_HEADER.e_entry) (phdr obj p k) /\
     (forall j, i <= j < k ->
        ~ holds_entry32 (field_u32 (data obj) ELF_HEADER.e_entry) (phdr obj p j)) /\
     GetTextRange_loop obj p n i = Ok (phdr obj p k) []) \/
  ((forall j, i <= j < i + Z.of_nat n ->
      ~ holds_entry32 (field_u32 (data obj) ELF_HEADER.e_entry) (phdr obj p j)) /\
   GetTextRange_loop obj p n i = Ok (0, 0) []).
Proof.
  induction n as [|n IH]; intros i Hp Hi He Hfit.
  - right. split; [intros; lia|reflexivity].
  - cbn [GetTextRange_loop]. unfold phr_u32, header_u32, size in *.
    unfold ELF_PHR.sizeof, ELF_PHR.p_vaddr, ELF_PHR.p_memsz, ELF_HEADER.e_entry in *.
    rewrite (read_u32_ok (data obj) (p + 32 * i + 8)) by lia.
    rewrite bind_Ok_nil.
    rewrite (read_u32_ok (data obj) (p + 32 * i + 20)) by lia.
    rewrite bind_Ok_nil.
    rewrite (read_u32_ok (data obj) 24) by lia.
    rewrite bind_Ok_nil.
    destruct ((field_u32 (data obj) (p + 32 * i + 8) <=? field_u32 (data obj) 24)
              && (u32 (field_u32 (data obj) (p + 32 * i + 8)
                       + field_u32 (data obj) (p + 32 * i + 20))
                  >? field_u32 (data obj) 24)) eqn:Ht.
    + left. exists i. split; [lia|].
      split; [apply text_test_spec; exact Ht|].
      split; [intros; lia|reflexivity].
    + assert (Hno : ~ holds_entry32 (field_u32 (data obj) 24) (phdr obj p i)).
      { intros Hc. apply text_test_spec in Hc.
        unfold ELF_PHR.sizeof, ELF_PHR.p_vaddr, ELF_PHR.p_memsz in Hc.
        rewrite Hc in Ht. discriminate. }
      destruct (IH (i + 1)) as [(k & Hk & Hin & Hfirst & Hr)|(Hnone & Hr)];
        try lia.
      * left. exists k. split; [lia|]. split; [exact Hin|].
        split; [|exact Hr].
        intros j Hj. destruct (Z.eq_dec j i) as [->|Hne]; [exact Hno|].
        apply Hfirst. lia.
      * right. split; [|exact Hr].
        intros j Hj. destruct (Z.eq_dec j i) as [->|Hne]; [exact Hno|].
        apply Hnone. lia.
Qed.

(** C4, as stated, fails for a segment that ends at the top of the
    address space: the image loads, its one segment is
    [0xFFFF0000, 0xFFFF0000 + 0x10000), the entry point 0xFFFF0100 lies in
    it, and [GetTextRange] returns (0, 0). *)
Lemma GetTextRange_misses_top_segment :
  (exists log,
     OpenFile false ElfObject_ctor "a.elf" false
              (one_file "a.elf" (text_image 0xFFFF0100 0xFFFF0000 0x10000))
     = Ok (Loaded (text_object 0xFFFF0100 0xFFFF0000 0x10000)) log) /\
  isPSXElf (text_object 0xFFFF0100 0xFFFF0000 0x10000) = false /\
  proghead (text_object 0xFFFF0100 0xFFFF0000 0x10000) = Some 52 /\
  field_u32 (data (text_object 0xFFFF0100 0xFFFF0000 0x10000)) ELF_HEADER.e_entry
  = 0xFFFF0100 /\
  phdr (text_object 0xFFFF0100 0xFFFF0000 0x10000) 52 0 = (0xFFFF0000, 0x10000) /\
  holds_entry 0xFFFF0100 (0xFFFF0000, 0x10000) /\
  GetTextRange (text_object 0xFFFF0100 0xFFFF0000 0x10000) = Ok (0, 0) [].
Proof.
  split; [eexists; vm_compute; reflexivity|].
  repeat split; try (vm_compute; reflexivity); vm_compute; discriminate.
Qed.

Lemma GetTextRange_loop_match obj p n : forall i k,
  0 <= p -> 0 <= i -> 28 <= size obj ->
  i <= k < i + Z.of_nat n -> p + 32 * (k + 1) <= size obj ->
  holds_entry32 (field_u32 (data obj) ELF_HEADER.e_entry) (phdr obj p k) ->
  (forall j, i <= j < k ->
     ~ holds_entry32 (field_u32 (data obj) ELF_HEADER.e_entry) (phdr obj p j)) ->
  GetTextRange_loop obj p n i = Ok (phdr obj p k) [].
Proof.
  induction n as [|n IH]; intros i k Hp Hi He Hk Hfit Hin Hfirst; [lia|].
  cbn [GetTextRange_loop]. unfold phr_u32, header_u32, size in *.
  unfold ELF_PHR.sizeof, ELF_PHR.p_vaddr, ELF_PHR.p_memsz, ELF_HEADER.e_entry in *.
  rewrite (read_u32_ok (data obj) (p + 32 * i + 8)) by lia.
  rewrite bind_Ok_nil.
  rewrite (read_u32_ok (data obj) (p + 32 * i + 20)) by lia.
  rewrite bind_Ok_nil.
  rewrite (read_u32_ok (data obj) 24) by lia.
  rewrite bind_Ok_nil.
  destruct ((field_u32 (data obj) (p + 32 * i + 8) <=? field_u32 (data obj) 24)
            && (u32 (field_u32 (data obj) (p + 32 * i + 8)
                     + field_u32 (data obj) (p + 32 * i + 20))
                >? field_u32 (data obj) 24)) eqn:Ht.
  - destruct (Z.eq_dec k i) as [->|Hne]; [reflexivity|].
    exfalso. apply (Hfirst i); [lia|].
    apply text_test_spec. exact Ht.
  - destruct (Z.eq_dec k i) as [->|Hne].
    + apply text_test_spec in Hin.
      unfold ELF_PHR.sizeof, ELF_PHR.p_vaddr, ELF_PHR.p_memsz in Hin.
      rewrite Hin in Ht. discriminate.
    + apply IH; try lia; try assumption.
      intros j Hj. apply Hfirst. lia.
Qed.

(** C4 (amended): for an ELF image with [proghead] present, [GetTextRange]
    returns ([p_vaddr], [p_memsz]) of the first record in table order with
    [p_vaddr <= e_entry < (p_vaddr + p_memsz) mod 2^32], the end of the
    interval being a 32-bit sum, provided that record and the records
    before it lie inside the buffer; it returns (0, 0) when all [e_phnum]
    records lie inside the buffer and none passes this test, when the
    image is a console executable, and when [proghead] is absent. *)
Theorem GetTextRange_first_match (obj : ElfObject) :
  (isPSXElf obj = true -> GetTextRange obj = Ok (0, 0) []) /\
  (proghead obj = None -> GetTextRange obj = Ok (0, 0) []) /\
  (forall p,
     isPSXElf obj = false -> proghead obj = Some p -> 0 <= p ->
     ELF_HEADER.sizeof <= size obj ->
     (forall k,
        0 <= k < field_u16 (data obj) ELF_HEADER.e_phnum ->
        p + 32 * (k + 1) <= size obj ->
        holds_entry32 (field_u32 (data obj) ELF_HEADER.e_entry) (phdr obj p k) ->
        (forall j, 0 <= j < k ->
           ~ holds_entry32 (field_u32 (data obj) ELF_HEADER.e_entry) (phdr obj p j)) ->
        GetTextRange obj = Ok (phdr obj p k) []) /\
     (p + 32 * field_u16 (data obj) ELF_HEADER.e_phnum <= size obj ->
      (forall j, 0 <= j < field_u16 (data obj) ELF_HEADER.e_phnum ->
         ~ holds_entry32 (field_u32 (data obj) ELF_HEADER.e_entry) (phdr obj p j)) ->
      GetTextRange obj = Ok (0, 0) [])).
Proof.
  split; [|split].
  - intros H. unfold GetTextRange. rewrite H. reflexivity.
  - intros H. unfold GetTextRange. rewrite H. destruct (negb (isPSXElf obj)); reflexivity.
  - intros p Helf Hp Hp0 Hsz.
    unfold GetTextRange, header_u16. rewrite Helf, Hp. simpl negb. cbv iota.
    unfold ELF_HEADER.sizeof in Hsz.
    pose proof (field_u16_range (data obj) ELF_HEADER.e_phnum) as Hr.
    rewrite read_u16_ok by (unfold size in Hsz; unfold ELF_HEADER.e_phnum; lia).
    rewrite bind_Ok_nil. split.
    + intros k Hk Hfit Hin Hfirst.
      apply GetTextRange_loop_match; try assumption; try lia.
    + intros Hfit Hnone.
      destruct (GetTextRange_loop_spec obj p
                  (Z.to_nat (field_u16 (data obj) ELF_HEADER.e_phnum)) 0)
        as [(k & Hk & Hin & _)|(_ & H)]; try lia; [|exact H].
      exfalso. apply (Hnone k); [lia|exact Hin].
Qed.

Lemma GetTextRange_first_match_witness :
  isPSXElf (short_table_object 0x100010 0x100000 0x2000) = false /\
  proghead (short_table_object 0x100010 0x100000 0x2000) = Some 52 /\
  field_u16 (data (short_table_object 0x100010 0x100000 0x2000))
            ELF_HEADER.e_phnum = 2 /\
  size (short_table_object 0x100010 0x100000 0x2000) = 84 /\
  GetTextRange (short_table_object 0x100010 0x100000 0x2000)
  = Ok (phdr (short_table_object 0x100010 0x100000 0x2000) 52 0) [].
Proof.
  split; [reflexivity|]. split; [reflexivity|].
  split; [vm_compute; reflexivity|]. split; [vm_compute; reflexivity|].
  apply (proj1 (proj2 (proj2 (GetTextRange_first_match
                                (short_table_object 0x100010 0x100000 0x2000)))
                      52 eq_refl eq_refl ltac:(lia)
                      ltac:(vm_compute; discriminate)) 0).
  - vm_compute. split; [discriminate|reflexivity].
  - vm_compute. discriminate.
  - vm_compute. split; [discriminate|reflexivity].
  - intros j Hj. lia.
Defined.

(** The text range of an image whose segment holds the entry point; of
    images with two overlapping segments, where the first in table order
    wins; and of an image whose table runs past the buffer, where the
    scan reads the second record outside it. *)
Example GetTextRange_text_object :
  GetTextRange (text_object 0x100010 0x100000 0x2000) = Ok (0x100000, 0x2000) [].
Proof. vm_compute. reflexivity. Qed.

Example GetTextRange_overlapping_segments :
  GetTextRange (two_segment_object 0x100010 0x100000 0x2000 0x100000 0x10000)
  = Ok (0x100000, 0x2000) [] /\
  GetTextRange (two_segment_object 0x100010 0x100000 0x10000 0x100000 0x2000)
  = Ok (0x100000, 0x10000) [].
Proof. split; vm_compute; reflexivity. Qed.

Example GetTextRange_short_table :
  (exists log,
     OpenFile false ElfObject_ctor "a.elf" false
       (one_file "a.elf" (data (short_table_object 0x200000 0x100000 0x2000)))
     = Ok (Loaded (short_table_object 0x200000 0x100000 0x2000)) log) /\
  size (short_table_object 0x200000 0x100000 0x2000) = 84 /\
  GetTextRange (short_table_object 0x200000 0x100000 0x2000) = OutOfBounds 92.
Proof.
  split; [eexists; vm_compute; reflexivity|]. split; vm_compute; reflexivity.
Qed.

(** ** The checksum *)

(** Induction over a buffer four bytes at a time. *)
Lemma list_ind4 {A} (P : list A -> Prop) :
  (forall d, (length d < 4)%nat -> P d) ->
  (forall a b c e rest, P rest -> P (a :: b :: c :: e :: rest)) ->
  forall d, P d.
Proof.
  intros Hshort Hstep.
  assert (H : forall n d, (length d <= n)%nat -> P d).
  { induction n as [|n IH]; intros d Hd.
    - apply Hshort. lia.
    - destruct d as [|a [|b [|c [|e rest]]]]; try (apply Hshort; simpl; lia).
      apply Hstep. apply IH. simpl in Hd. lia. }
  intros d. apply (H (length d)). lia.
Qed.

Lemma words_le_short d : (length d < 4)%nat -> words_le d = [].
Proof.
  destruct d as [|a [|b [|c [|e rest]]]]; simpl; intros; try reflexivity; lia.
Qed.

Lemma words_le_length d :
  Z.of_nat (length (words_le d)) = Z.of_nat (length d) / 4.
Proof.
  induction d as [d Hd|a b c e rest IH] using list_ind4.
  - rewrite words_le_short by assumption. simpl.
    symmetry. apply Z.div_small. lia.
  - cbn [words_le length]. rewrite !Nat2Z.inj_succ, IH.
    replace (Z.succ (Z.succ (Z.succ (Z.succ (Z.of_nat (length rest))))))
      with (Z.of_nat (length rest) + 1 * 4) by lia.
    rewrite Z.div_add by lia. lia.
Qed.

Lemma words_le_app a b :
  (length a mod 4 = 0)%nat -> words_le (a ++ b) = words_le a ++ words_le b.
Proof.
  induction a as [d Hd|x y z t rest IH] using list_ind4; intros Hm.
  - rewrite Nat.mod_small in Hm by assumption.
    apply length_zero_iff_nil in Hm. subst d. reflexivity.
  - cbn [app words_le]. f_equal. apply IH.
    cbn [length] in Hm.
    replace (S (S (S (S (length rest))))) with (length rest + 1 * 4)%nat in Hm by lia.
    rewrite Nat.Div0.mod_add in Hm. exact Hm.
Qed.

Lemma words_le_word w : length w = 4%nat -> words_le w = [le_combine w].
Proof.
  destruct w as [|a [|b [|c [|e [|f rest]]]]]; simpl; intros; try lia.
  reflexivity.
Qed.

Lemma xor_words_cons w ws : xor_words (w :: ws) = Z.lxor w (xor_words ws).
Proof. reflexivity. Qed.

Lemma xor_words_app ws1 ws2 :
  xor_words (ws1 ++ ws2) = Z.lxor (xor_words ws1) (xor_words ws2).
Proof.
  induction ws1 as [|w ws1 IH]; simpl.
  - reflexivity.
  - fold (xor_words (ws1 ++ ws2)). fold (xor_words ws1).
    rewrite IH, Z.lxor_assoc. reflexivity.
Qed.

Lemma field_u32_app pre suf :
  field_u32 (pre ++ suf) (Z.of_nat (length pre)) = le_combine (firstn 4 suf).
Proof.
  unfold field_u32. rewrite Nat2Z.id, skipn_app, skipn_all, Nat.sub_diag.
  reflexivity.
Qed.

(** The loop of [GetCRC], started at the end of [pre] with [n] words of
    [suf] to go, accumulates their exclusive-or. *)
Lemma GetCRC_loop_spec obj n : forall pre suf CRC,
  data obj = pre ++ suf -> (n <= length (words_le suf))%nat ->
  GetCRC_loop obj n (Z.of_nat (length pre)) CRC
  = Ok (Z.lxor CRC (xor_words (firstn n (words_le suf)))) [].
Proof.
  induction n as [|n IH]; intros pre suf CRC Hd Hn.
  - simpl. rewrite Z.lxor_0_r. reflexivity.
  - destruct suf as [|a [|b [|c [|e rest]]]]; try (simpl in Hn; lia).
    cbn [GetCRC_loop].
    rewrite read_u32_ok;
      [|lia|rewrite Hd, length_app; cbn [length]; lia].
    rewrite bind_Ok_nil, Hd, field_u32_app.
    cbn [firstn words_le]. rewrite xor_words_cons.
    replace (Z.of_nat (length pre) + 4)
      with (Z.of_nat (length (pre ++ [a; b; c; e])))
      by (rewrite length_app; cbn [length]; lia).
    rewrite (IH (pre ++ [a; b; c; e]) rest).
    + rewrite Z.lxor_assoc. reflexivity.
    + rewrite Hd, <- app_assoc. reflexivity.
    + cbn [words_le length] in Hn. lia.
Qed.

Lemma crc_words_le obj : (crc_words obj <= length (words_le (data obj)))%nat.
Proof.
  unfold crc_words, u32, size.
  pose proof (words_le_length (data obj)) as Hl.
  pose proof (Z.mod_pos_bound (Z.of_nat (length (data obj))) (2 ^ 32)) as Hm.
  assert (Hle : Z.of_nat (length (data obj)) mod 2 ^ 32
                <= Z.of_nat (length (data obj)))
    by (apply Z.mod_le; lia).
  assert (Hd : Z.of_nat (length (data obj)) mod 2 ^ 32 / 4
               <= Z.of_nat (length (data obj)) / 4)
    by (apply Z.div_le_mono; lia).
  lia.
Qed.

Lemma GetCRC_eq obj :
  GetCRC obj = Ok (xor_words (firstn (crc_words obj) (words_le (data obj)))) [].
Proof.
  unfold GetCRC. fold (crc_words obj).
  change 0 with (Z.of_nat (length (@nil byte))) at 1.
  rewrite (GetCRC_loop_spec obj (crc_words obj) [] (data obj)).
  - rewrite Z.lxor_0_l. reflexivity.
  - reflexivity.
  - apply crc_words_le.
Qed.

Lemma xor_words_all_zero d :
  Forall (fun b => b = Byte.x00) d -> xor_words (words_le d) = 0.
Proof.
  induction d as [d Hd|a b c e rest IH] using list_ind4; intros Hz.
  - rewrite words_le_short by assumption. reflexivity.
  - inversion Hz as [|? ? -> Hz1]; subst.
    inversion Hz1 as [|? ? -> Hz2]; subst.
    inversion Hz2 as [|? ? -> Hz3]; subst.
    inversion Hz3 as [|? ? -> Hz4]; subst.
    cbn [words_le]. rewrite xor_words_cons, IH by assumption. reflexivity.
Qed.

Lemma zeros_all_zero n : Forall (fun b => b = Byte.x00) (zeros n).
Proof.
  apply Forall_forall. intros b Hb. apply repeat_spec in Hb. exact Hb.
Qed.

Lemma four_GiB_buffer_length : Z.of_nat (length four_GiB_buffer) = 2 ^ 32.
Proof.
  unfold four_GiB_buffer, zeros.
  rewrite length_app, repeat_length, Nat2Z.inj_add, Z2Nat.id by lia.
  reflexivity.
Qed.

(** C7, as stated, fails for a buffer of 2^32 bytes, which a load of a
    console executable from a file accepts: the buffer has 2^30 whole
    words whose exclusive-or is 1, and [GetCRC], which counts the words
    from the length cast to 32 bits, processes none and returns 0. *)
Lemma GetCRC_four_GiB_buffer :
  (exists log,
     OpenFile false ElfObject_ctor "big.exe" true (one_file "big.exe" four_GiB_buffer)
     = Ok (Loaded four_GiB_object) log) /\
  size four_GiB_object = 2 ^ 32 /\
  xor_words (firstn (Z.to_nat (size four_GiB_object / 4))
                    (words_le (data four_GiB_object))) = 1 /\
  GetCRC four_GiB_object = Ok 0 [].
Proof.
  pose proof four_GiB_buffer_length as Hlen.
  assert (Hsize : size four_GiB_object = 2 ^ 32) by exact Hlen.
  split; [|split; [exact Hsize|split]].
  - exists []. unfold OpenFile, one_file. rewrite String.eqb_refl.
    cbn [StatFile]. cbv iota. rewrite Hlen.
    change (size_t (2 ^ 32)) with (2 ^ 32).
    unfold fread. cbn [stream]. rewrite Hlen.
    change ((0 <? 2 ^ 32) && (2 ^ 32 <=? 2 ^ 32)) with true. cbv iota.
    rewrite firstn_all2
      by (apply Nat2Z.inj_le; rewrite Hlen, Z2Nat.id by lia; lia).
    unfold InitElfHeaders. cbn [isPSXElf]. cbv iota.
    rewrite bind_ret_l. reflexivity.
  - rewrite firstn_all2.
    + cbn [data four_GiB_object]. unfold four_GiB_buffer.
      rewrite words_le_app by reflexivity.
      rewrite xor_words_app.
      rewrite (xor_words_all_zero (zeros (Z.to_nat (2 ^ 32 - 4)))
                                  (zeros_all_zero _)).
      reflexivity.
    + apply Nat2Z.inj_le. rewrite words_le_length.
      cbn [data four_GiB_object]. rewrite Hsize, Hlen.
      rewrite Z2Nat.id by (vm_compute; discriminate). apply Z.le_refl.
  - rewrite GetCRC_eq. unfold crc_words. rewrite Hsize.
    change (Z.to_nat (u32 (2 ^ 32) / 4)) with O. reflexivity.
Qed.

(** C7 (amended): [GetCRC] is the exclusive-or of the first
    floor((length mod 2^32) / 4) 32-bit little-endian words of the buffer,
    the word count being taken from the length cast to 32 bits; for a
    buffer of fewer than 2^32 bytes these are all floor(length / 4) whole
    words of the buffer, trailing bytes ignored, and a buffer of fewer
    than 4 bytes gives 0. *)
Theorem GetCRC_xor_of_words (obj : ElfObject) :
  GetCRC obj
  = Ok (xor_words (firstn (Z.to_nat (size obj mod 2 ^ 32 / 4))
                          (words_le (data obj)))) [] /\
  Z.of_nat (length (words_le (data obj))) = size obj / 4 /\
  (size obj < 2 ^ 32 ->
   GetCRC obj
   = Ok (xor_words (firstn (Z.to_nat (size obj / 4)) (words_le (data obj)))) [] /\
   GetCRC obj = Ok (xor_words (words_le (data obj))) []) /\
  (size obj < 4 -> GetCRC obj = Ok 0 []).
Proof.
  pose proof (GetCRC_eq obj) as H. unfold crc_words, u32 in H.
  pose proof (words_le_length (data obj)) as Hl. fold (size obj) in Hl.
  assert (Hpos : 0 <= size obj) by (unfold size; lia).
  split; [exact H|]. split; [exact Hl|]. split.
  - intros Hlt. rewrite Z.mod_small in H by lia.
    split; [exact H|]. rewrite H, firstn_all2; [reflexivity|].
    apply Nat2Z.inj_le. rewrite Hl, Z2Nat.id; [lia|].
    apply Z.div_pos; lia.
  - intros Hlt. rewrite H.
    rewrite words_le_short by (unfold size in Hlt; lia).
    rewrite firstn_nil. reflexivity.
Qed.

Lemma GetCRC_xor_of_words_witness :
  size (text_object 0x100010 0x100000 0x2000) < 2 ^ 32 /\
  GetCRC (text_object 0x100010 0x100000 0x2000)
  = Ok (xor_words (words_le (data (text_object 0x100010 0x100000 0x2000)))) [].
Proof.
  assert (H : size (text_object 0x100010 0x100000 0x2000) < 2 ^ 32)
    by (vm_compute; reflexivity).
  split; [exact H|].
  exact (proj2 (proj1 (proj2 (proj2 (GetCRC_xor_of_words
                                       (text_object 0x100010 0x100000 0x2000)))) H)).
Defined.

Lemma words_le_length_aligned d :
  (length d mod 4 = 0)%nat -> (length d = 4 * length (words_le d))%nat.
Proof.
  induction d as [d Hd|a b c e rest IH] using list_ind4; intros Hm.
  - rewrite Nat.mod_small in Hm by assumption.
    rewrite words_le_short by assumption. simpl. lia.
  - cbn [length words_le] in *.
    replace (S (S (S (S (length rest))))) with (length rest + 1 * 4)%nat in Hm by lia.
    rewrite Nat.Div0.mod_add in Hm. specialize (IH Hm). lia.
Qed.

Lemma words_le_two_words pre w1 mid w2 post :
  length w1 = 4%nat -> length w2 = 4%nat ->
  (length pre mod 4 = 0)%nat -> (length mid mod 4 = 0)%nat ->
  words_le (pre ++ w1 ++ mid ++ w2 ++ post)
  = words_le pre ++ le_combine w1 :: words_le mid
    ++ le_combine w2 :: words_le post.
Proof.
  intros H1 H2 Hp Hm.
  rewrite (words_le_app pre) by assumption.
  rewrite (words_le_app w1) by (rewrite H1; reflexivity).
  rewrite (words_le_app mid) by assumption.
  rewrite (words_le_app w2) by (rewrite H2; reflexivity).
  rewrite (words_le_word w1), (words_le_word w2) by assumption.
  reflexivity.
Qed.

Lemma firstn_app_all {T} (l1 l2 : list T) n :
  (length l1 <= n)%nat -> firstn n (l1 ++ l2) = l1 ++ firstn (n - length l1) l2.
Proof. intros H. rewrite firstn_app, firstn_all2 by assumption. reflexivity. Qed.

Lemma lxor_swap a b c : Z.lxor a (Z.lxor b c) = Z.lxor c (Z.lxor b a).
Proof.
  rewrite <- Z.lxor_assoc, Z.lxor_comm, (Z.lxor_comm a b). reflexivity.
Qed.

Lemma xor_words_firstn_swap A W1 B W2 C n :
  (length A + 1 + length B + 1 <= n)%nat ->
  xor_words (firstn n (A ++ W2 :: B ++ W1 :: C))
  = xor_words (firstn n (A ++ W1 :: B ++ W2 :: C)).
Proof.
  intros Hn.
  assert (E : forall X Y,
             A ++ X :: B ++ Y :: C = (A ++ X :: B ++ [Y]) ++ C).
  { intros. rewrite <- !app_assoc. cbn [app]. rewrite <- app_assoc. reflexivity. }
  assert (L : forall X Y,
             length (A ++ X :: B ++ [Y]) = (length A + 1 + length B + 1)%nat).
  { intros. rewrite length_app. cbn [length]. rewrite length_app. cbn [length]. lia. }
  rewrite (E W2 W1), (E W1 W2).
  rewrite !firstn_app_all by (rewrite L; exact Hn).
  rewrite !L, !(xor_words_app (A ++ _)). f_equal.
  rewrite !xor_words_app, !xor_words_cons, !xor_words_app.
  cbn [xor_words fold_right]. rewrite !Z.lxor_0_r. f_equal.
  apply lxor_swap.
Qed.

(** Exchanging two aligned words that [GetCRC] processes leaves the
    result unchanged. *)
Lemma GetCRC_swapped obj obj' pre w1 mid w2 post :
  length w1 = 4%nat -> length w2 = 4%nat ->
  (length pre mod 4 = 0)%nat -> (length mid mod 4 = 0)%nat ->
  data obj = pre ++ w1 ++ mid ++ w2 ++ post ->
  data obj' = swapped pre w1 mid w2 post ->
  (length pre + 4 + length mid + 4 <= 4 * crc_words obj)%nat ->
  GetCRC obj' = GetCRC obj.
Proof.
  intros H1 H2 Hp Hm Hd Hd' Hn.
  assert (Hlen : length (data obj') = length (data obj)).
  { rewrite Hd, Hd'. unfold swapped. rewrite !length_app. lia. }
  assert (Hc : crc_words obj' = crc_words obj)
    by (unfold crc_words, size; rewrite Hlen; reflexivity).
  rewrite !GetCRC_eq, Hc, Hd, Hd'. unfold swapped.
  rewrite !words_le_two_words by assumption.
  rewrite xor_words_firstn_swap; [reflexivity|].
  pose proof (words_le_length_aligned pre Hp).
  pose proof (words_le_length_aligned mid Hm).
  lia.
Qed.

Lemma crc_words_all obj :
  size obj < 2 ^ 32 -> crc_words obj = length (words_le (data obj)).
Proof.
  intros Hlt. unfold crc_words, u32.
  assert (Hpos : 0 <= size obj) by (unfold size; lia).
  rewrite Z.mod_small by lia.
  pose proof (words_le_length (data obj)) as Hl. fold (size obj) in Hl.
  rewrite <- Hl, Nat2Z.id. reflexivity.
Qed.

(** C8, as stated, fails: in the 8-byte buffer of the words 1 and 2 the
    two words differ and their exclusive-or is not zero, exchanging them
    changes the buffer, and [GetCRC], 3 and not zero, is the same for
    both. *)
Lemma GetCRC_swap_same_result :
  le_combine (le_split 4 1) <> le_combine (le_split 4 2) /\
  Z.lxor (le_combine (le_split 4 1)) (le_combine (le_split 4 2)) <> 0 /\
  swapped [] (le_split 4 1) [] (le_split 4 2) []
  <> [] ++ le_split 4 1 ++ [] ++ le_split 4 2 ++ [] /\
  GetCRC (mkElfObject ([] ++ le_split 4 1 ++ [] ++ le_split 4 2 ++ [])
                      None None "a.elf" false) = Ok 3 [] /\
  GetCRC (mkElfObject (swapped [] (le_split 4 1) [] (le_split 4 2) [])
                      None None "a.elf" false) = Ok 3 [].
Proof.
  repeat split; try (vm_compute; reflexivity); vm_compute; discriminate.
Qed.

(** C8 (amended): [GetCRC] is deterministic, a function of the buffer
    alone, and it is insensitive to the order of the words: exchanging two
    aligned 32-bit words that are both among the words it processes, which
    are any two aligned words when the buffer has fewer than 2^32 bytes,
    never changes the result. *)
Theorem GetCRC_deterministic_order_insensitive :
  (forall obj obj', data obj = data obj' -> GetCRC obj = GetCRC obj') /\
  (forall obj obj' pre w1 mid w2 post,
     length w1 = 4%nat -> length w2 = 4%nat ->
     (length pre mod 4 = 0)%nat -> (length mid mod 4 = 0)%nat ->
     data obj = pre ++ w1 ++ mid ++ w2 ++ post ->
     data obj' = swapped pre w1 mid w2 post ->
     (length pre + 4 + length mid + 4 <= 4 * crc_words obj)%nat ->
     GetCRC obj' = GetCRC obj) /\
  (forall obj obj' pre w1 mid w2 post,
     length w1 = 4%nat -> length w2 = 4%nat ->
     (length pre mod 4 = 0)%nat -> (length mid mod 4 = 0)%nat ->
     data obj = pre ++ w1 ++ mid ++ w2 ++ post ->
     data obj' = swapped pre w1 mid w2 post ->
     size obj < 2 ^ 32 ->
     GetCRC obj' = GetCRC obj).
Proof.
  split; [|split].
  - intros obj obj' Hd. rewrite !GetCRC_eq. unfold crc_words, size.
    rewrite Hd. reflexivity.
  - exact GetCRC_swapped.
  - intros obj obj' pre w1 mid w2 post H1 H2 Hp Hm Hd Hd' Hlt.
    apply (GetCRC_swapped obj obj' pre w1 mid w2 post); try assumption.
    rewrite (crc_words_all obj Hlt), Hd, words_le_two_words by assumption.
    rewrite !length_app. cbn [length]. rewrite !length_app. cbn [length].
    pose proof (words_le_length_aligned pre Hp).
    pose proof (words_le_length_aligned mid Hm).
    lia.
Qed.

Lemma GetCRC_deterministic_order_insensitive_witness :
  GetCRC (mkElfObject (swapped (le_split 4 7) (le_split 4 1) [] (le_split 4 2)
                               [Byte.xff])
                      None None "b.elf" true)
  = GetCRC (mkElfObject (le_split 4 7 ++ le_split 4 1 ++ [] ++ le_split 4 2
                           ++ [Byte.xff])
                        None None "a.elf" false).
Proof.
  apply (proj2 (proj2 GetCRC_deterministic_order_insensitive)
           (mkElfObject (le_split 4 7 ++ le_split 4 1 ++ [] ++ le_split 4 2
                           ++ [Byte.xff])
                        None None "a.elf" false)
           (mkElfObject (swapped (le_split 4 7) (le_split 4 1) [] (le_split 4 2)
                                 [Byte.xff])
                        None None "b.elf" true)
           (le_split 4 7) (le_split 4 1) [] (le_split 4 2) [Byte.xff]);
    reflexivity.
Defined.

(** * Further properties of the loads *)

(** What a successful load from a file leaves in the object, whatever the
    object held before. *)
Lemma OpenFile_loaded trace obj0 srcfile isPSXElf_ fs obj log :
  OpenFile trace obj0 srcfile isPSXElf_ fs = Ok (Loaded obj) log ->
  exists fp sd_Size,
    fs srcfile = Some fp /\ StatFile fp = Some sd_Size /\
    0 < size_t sd_Size <= Z.of_nat (length (stream fp)) /\
    data obj = firstn (Z.to_nat (size_t sd_Size)) (stream fp) /\
    size obj = size_t sd_Size /\
    filename obj = srcfile /\ isPSXElf obj = isPSXElf_ /\
    (isPSXElf_ = false ->
     size obj = sd_Size /\ ELF_HEADER.sizeof < size obj <= 0x0FFFFFFF).
Proof.
  unfold OpenFile.
  destruct (fs srcfile) as [fp|] eqn:Hfs; [|discriminate].
  destruct (StatFile fp) as [sd_Size|] eqn:Hst; [|discriminate].
  destruct (if isPSXElf_ then Accepted else CheckElfSize sd_Size) eqn:Hc;
    [|discriminate].
  destruct (fread fp (size_t sd_Size)) as [bytes|] eqn:Hr; [|discriminate].
  intros H. inv_bind H obj' Hinit. inv_ret H.
  apply InitElfHeaders_inv in Hinit. cbn [data isPSXElf filename proghead secthead] in Hinit.
  destruct Hinit as (Hd & Hp & Hf & Hpsx & _).
  unfold fread in Hr.
  destruct ((0 <? size_t sd_Size)
            && (size_t sd_Size <=? Z.of_nat (length (stream fp)))) eqn:Hb;
    [|discriminate].
  apply andb_prop in Hb. destruct Hb as (Hb1 & Hb2).
  apply Z.ltb_lt in Hb1. apply Z.leb_le in Hb2.
  injection Hr as Hr'. rewrite <- Hr' in Hd.
  assert (Hsize : size obj = size_t sd_Size).
  { unfold size. rewrite Hd, length_firstn. lia. }
  assert (Helf : isPSXElf_ = false ->
                 ELF_HEADER.sizeof < sd_Size <= 0xfffffff /\ size_t sd_Size = sd_Size).
  { intros ->. unfold CheckElfSize in Hc.
    destruct (Z.gtb_spec sd_Size 0xfffffff); [discriminate|].
    destruct (Z.eqb_spec sd_Size (-1)); [discriminate|].
    destruct (Z.leb_spec sd_Size ELF_HEADER.sizeof); [discriminate|].
    unfold ELF_HEADER.sizeof in *. split; [lia|].
    unfold size_t. apply Z.mod_small. lia. }
  exists fp, sd_Size.
  split; [reflexivity|]. split; [exact Hst|]. split; [lia|].
  split; [exact Hd|]. split; [exact Hsize|]. split; [exact Hf|].
  split; [exact Hp|].
  intros He. destruct (Helf He) as (Hb & Hs). rewrite Hsize, Hs. split; [reflexivity|lia].
Qed.

(** What a successful load from a disc image leaves in the object. *)
Lemma OpenIsoFile_loaded trace obj0 srcfile isor isPSXElf_ obj log :
  OpenIsoFile trace obj0 srcfile isor isPSXElf_ = Ok (Loaded obj) log ->
  exists de bytes,
    LocateFile isor srcfile = Some de /\
    CheckElfSize (length_le de) = Accepted /\
    ReadFile isor de = Some bytes /\
    InitElfHeaders trace
      (mkElfObject bytes (proghead obj0) (secthead obj0) srcfile isPSXElf_)
    = Ok obj log.
Proof.
  unfold OpenIsoFile.
  destruct (LocateFile isor srcfile) as [de|] eqn:Hl; [|discriminate].
  destruct (CheckElfSize (length_le de)) eqn:Hc; [|discriminate].
  destruct (ReadFile isor de) as [bytes|] eqn:Hr; [|discriminate].
  intros H. inv_bind H obj' Hinit. inv_ret H.
  exists de, bytes. rewrite app_nil_r. auto.
Qed.

(** X1: a load from a file never reads outside the buffer: whatever the
    filesystem delivers and whatever the format flag is, [OpenFile] ends
    with a loaded object or with an error. *)
Theorem OpenFile_stays_in_buffer trace obj srcfile isPSXElf_ fs :
  exists r log, OpenFile trace obj srcfile isPSXElf_ fs = Ok r log.
Proof. exact (OpenFile_succeeds trace obj srcfile isPSXElf_ fs). Qed.

(** X2: a load from a disc image never reads outside the buffer, provided
    [ReadFile] delivers as many bytes as the located entry declares: the
    size check on the declared length then covers the header reads. *)
Theorem OpenIsoFile_stays_in_buffer trace obj srcfile isor isPSXElf_ :
  (forall de bytes,
     LocateFile isor srcfile = Some de -> ReadFile isor de = Some bytes ->
     Z.of_nat (length bytes) = length_le de) ->
  exists r log, OpenIsoFile trace obj srcfile isor isPSXElf_ = Ok r log.
Proof.
  intros Hfull. change (succeeds (OpenIsoFile trace obj srcfile isor isPSXElf_)).
  unfold OpenIsoFile.
  destruct (LocateFile isor srcfile) as [de|]; [|apply succeeds_ret].
  destruct (CheckElfSize (length_le de)) eqn:Hc; [|apply succeeds_ret].
  destruct (ReadFile isor de) as [bytes|] eqn:Hr; [|apply succeeds_ret].
  apply succeeds_bind; [|intros; apply succeeds_ret].
  apply InitElfHeaders_succeeds. right. unfold size. cbn [data].
  rewrite (Hfull de bytes eq_refl Hr).
  unfold CheckElfSize in Hc.
  destruct (Z.gtb_spec (length_le de) 0xfffffff); [discriminate|].
  destruct (Z.eqb_spec (length_le de) (-1)); [discriminate|].
  destruct (Z.leb_spec (length_le de) ELF_HEADER.sizeof); [discriminate|].
  lia.
Qed.

Lemma OpenIsoFile_stays_in_buffer_witness :
  exists r log,
    OpenIsoFile true ElfObject_ctor "a.elf"
                (one_entry "a.elf" (text_image 0x100010 0x100000 0x2000)) false
    = Ok r log.
Proof.
  apply OpenIsoFile_stays_in_buffer.
  intros de bytes Hl Hr. cbn in Hl, Hr.
  injection Hl as <-. injection Hr as <-. reflexivity.
Defined.

(** X3: after a successful load from a file the buffer is the first
    [sd.Size] bytes of the file and is not empty, the name and the format
    flag are the arguments of the load, and for an ELF load the buffer
    has more than 52 and at most 0x0FFFFFFF bytes. *)
Theorem OpenFile_loads_stat_size trace obj0 srcfile isPSXElf_ fs obj log :
  OpenFile trace obj0 srcfile isPSXElf_ fs = Ok (Loaded obj) log ->
  exists fp sd_Size,
    fs srcfile = Some fp /\ StatFile fp = Some sd_Size /\
    data obj = firstn (Z.to_nat (size_t sd_Size)) (stream fp) /\
    size obj = size_t sd_Size /\ 0 < size obj /\
    filename obj = srcfile /\ isPSXElf obj = isPSXElf_ /\
    (isPSXElf_ = false -> size obj = sd_Size /\ 52 < size obj <= 0x0FFFFFFF).
Proof.
  intros H. apply OpenFile_loaded in H.
  destruct H as (fp & n & Hfs & Hst & Hn & Hd & Hs & Hf & Hp & Helf).
  exists fp, n. repeat split; try assumption; try lia; apply Helf; assumption.
Qed.

Lemma OpenFile_loads_stat_size_witness :
  exists fp sd_Size,
    one_file "a.elf" (text_image 0x100010 0x100000 0x2000) "a.elf"%string = Some fp /\
    StatFile fp = Some sd_Size /\
    data (text_object 0x100010 0x100000 0x2000)
    = firstn (Z.to_nat (size_t sd_Size)) (stream fp) /\
    size (text_object 0x100010 0x100000 0x2000) = size_t sd_Size /\
    0 < size (text_object 0x100010 0x100000 0x2000) /\
    filename (text_object 0x100010 0x100000 0x2000) = "a.elf"%string /\
    isPSXElf (text_object 0x100010 0x100000 0x2000) = false /\
    (false = false ->
     size (text_object 0x100010 0x100000 0x2000) = sd_Size /\
     52 < size (text_object 0x100010 0x100000 0x2000) <= 0x0FFFFFFF).
Proof.
  apply (OpenFile_loads_stat_size false ElfObject_ctor "a.elf" false
           (one_file "a.elf" (text_image 0x100010 0x100000 0x2000))
           (text_object 0x100010 0x100000 0x2000)
           [DevCon_WriteLn "Initializing Elf: %zu bytes" [ArgZ 84]]).
  vm_compute. reflexivity.
Defined.

(** X4: a console-executable load from a file is never rejected for its
    size: it ends with a loaded object or with the read error, and emits
    no diagnostic. *)
Theorem OpenFile_console_executable_outcomes trace obj srcfile fs :
  (exists obj', OpenFile trace obj srcfile true fs = Ok (Loaded obj') []) \/
  OpenFile trace obj srcfile true fs = Ok (Failed IoError) [].
Proof.
  unfold OpenFile.
  destruct (fs srcfile) as [fp|]; [|right; reflexivity].
  destruct (StatFile fp) as [sd_Size|]; [|right; reflexivity].
  destruct (fread fp (size_t sd_Size)) as [bytes|]; [|right; reflexivity].
  left. eexists. reflexivity.
Qed.

Lemma InitElfHeaders_keeps_views trace obj0 obj log :
  InitElfHeaders trace obj0 = Ok obj log ->
  (proghead obj0 <> None -> proghead obj <> None) /\
  (secthead obj0 <> None -> secthead obj <> None).
Proof.
  intros H. apply InitElfHeaders_inv in H.
  destruct H as (_ & _ & _ & Hpsx & Helf).
  destruct (isPSXElf obj0).
  - destruct (Hpsx eq_refl) as (-> & ->). auto.
  - destruct (Helf eq_refl) as (-> & ->).
    split; intros Hn;
      match goal with |- (if ?c then _ else _) <> None => destruct c end;
      try discriminate; assumption.
Qed.

(** X5: a load never clears a view.  When the object already has a
    program-header or section-header view (it was loaded before), the
    view is still present after a successful load, by [OpenFile] or by
    [OpenIsoFile], of either format: [HasProgramHeaders] and
    [HasSectionHeaders] stay true, also after a console-executable
    load. *)
Theorem load_never_clears_views trace obj0 srcfile isPSXElf_ fs isor obj log :
  OpenFile trace obj0 srcfile isPSXElf_ fs = Ok (Loaded obj) log \/
  OpenIsoFile trace obj0 srcfile isor isPSXElf_ = Ok (Loaded obj) log ->
  (HasProgramHeaders obj0 = true -> HasProgramHeaders obj = true) /\
  (HasSectionHeaders obj0 = true -> HasSectionHeaders obj = true).
Proof.
  intros H.
  assert (Hi : exists bytes,
             InitElfHeaders trace
               (mkElfObject bytes (proghead obj0) (secthead obj0) srcfile isPSXElf_)
             = Ok obj log).
  { destruct H as [H|H].
    - unfold OpenFile in H.
      destruct (fs srcfile) as [fp|]; [|discriminate].
      destruct (StatFile fp) as [sd_Size|]; [|discriminate].
      destruct (if isPSXElf_ then Accepted else CheckElfSize sd_Size);
        [|discriminate].
      destruct (fread fp (size_t sd_Size)) as [bytes|]; [|discriminate].
      inv_bind H obj' Hinit. inv_ret H. exists bytes.
      rewrite app_nil_r. exact Hinit.
    - apply OpenIsoFile_loaded in H.
      destruct H as (de & bytes & _ & _ & _ & H). eauto. }
  destruct Hi as (bytes & Hi).
  apply InitElfHeaders_keeps_views in Hi.
  cbn [proghead secthead isPSXElf] in Hi. destruct Hi as (Hp & Hs).
  unfold HasProgramHeaders, HasSectionHeaders.
  split.
  - intros H0. destruct (proghead obj0); [|discriminate].
    destruct (proghead obj); [reflexivity|]. exfalso. apply Hp; [discriminate|reflexivity].
  - intros H0. destruct (secthead obj0); [|discriminate].
    destruct (secthead obj); [reflexivity|]. exfalso. apply Hs; [discriminate|reflexivity].
Qed.

Lemma load_never_clears_views_witness :
  HasProgramHeaders (text_object 0x100010 0x100000 0x2000) = true /\
  exists obj,
    OpenFile false (text_object 0x100010 0x100000 0x2000) "PSX.EXE" true
             (one_file "PSX.EXE" (psx_exe 0x80010000 0))
    = Ok (Loaded obj) [] /\
    HasProgramHeaders obj = true.
Proof.
  assert (H : OpenFile false (text_object 0x100010 0x100000 0x2000) "PSX.EXE" true
                (one_file "PSX.EXE" (psx_exe 0x80010000 0))
              = Ok (Loaded (mkElfObject (psx_exe 0x80010000 0) (Some 52) None
                                        "PSX.EXE" true)) [])
    by (vm_compute; reflexivity).
  split; [reflexivity|]. eexists. split; [exact H|].
  exact (proj1 (load_never_clears_views false _ "PSX.EXE" true
                  (one_file "PSX.EXE" (psx_exe 0x80010000 0))
                  (one_entry "PSX.EXE" []) _ _ (or_introl H)) eq_refl).
Defined.

(** X6: the two loads agree.  When the disc image and the filesystem hold
    the same bytes under the name, with the declared length and the stat
    size both the length of the bytes, [OpenIsoFile] and [OpenFile] give
    the same result and the same diagnostics for an ELF load, and for a
    console-executable load whenever the length passes the size check. *)
Theorem load_paths_agree trace obj srcfile isor fs isPSXElf_ de fp bytes :
  LocateFile isor srcfile = Some de -> ReadFile isor de = Some bytes ->
  length_le de = Z.of_nat (length bytes) ->
  fs srcfile = Some fp -> StatFile fp = Some (Z.of_nat (length bytes)) ->
  stream fp = bytes ->
  isPSXElf_ = false \/ CheckElfSize (Z.of_nat (length bytes)) = Accepted ->
  OpenIsoFile trace obj srcfile isor isPSXElf_
  = OpenFile trace obj srcfile isPSXElf_ fs.
Proof.
  intros Hl Hr Hlen Hfs Hst Hstream Hok.
  unfold OpenIsoFile, OpenFile. rewrite Hl, Hlen, Hfs, Hst.
  destruct (CheckElfSize (Z.of_nat (length bytes))) eqn:Hc.
  - assert (Hread : fread fp (size_t (Z.of_nat (length bytes))) = Some bytes).
    { unfold CheckElfSize in Hc.
      destruct (Z.gtb_spec (Z.of_nat (length bytes)) 0xfffffff); [discriminate|].
      destruct (Z.eqb_spec (Z.of_nat (length bytes)) (-1)); [discriminate|].
      destruct (Z.leb_spec (Z.of_nat (length bytes)) ELF_HEADER.sizeof);
        [discriminate|].
      unfold ELF_HEADER.sizeof in *.
      unfold fread, size_t. rewrite Z.mod_small by lia. rewrite Hstream.
      destruct (Z.ltb_spec 0 (Z.of_nat (length bytes))); [|lia].
      destruct (Z.leb_spec (Z.of_nat (length bytes)) (Z.of_nat (length bytes)));
        [|lia].
      simpl. rewrite Nat2Z.id, firstn_all. reflexivity. }
    rewrite Hr, Hread. destruct isPSXElf_; reflexivity.
  - destruct Hok as [->|Hok]; [reflexivity|discriminate].
Qed.

Lemma load_paths_agree_witness :
  OpenIsoFile true ElfObject_ctor "a.elf"
              (one_entry "a.elf" (text_image 0x100010 0x100000 0x2000)) false
  = OpenFile true ElfObject_ctor "a.elf" false
             (one_file "a.elf" (text_image 0x100010 0x100000 0x2000)).
Proof.
  apply (load_paths_agree true ElfObject_ctor "a.elf"
           (one_entry "a.elf" (text_image 0x100010 0x100000 0x2000))
           (one_file "a.elf" (text_image 0x100010 0x100000 0x2000)) false
           {| lba := 24;
              length_le := Z.of_nat (length (text_image 0x100010 0x100000 0x2000)) |}
           {| StatFile :=
                Some (Z.of_nat (length (text_image 0x100010 0x100000 0x2000)));
              stream := text_image 0x100010 0x100000 0x2000 |}
           (text_image 0x100010 0x100000 0x2000));
    try reflexivity.
  left. reflexivity.
Defined.

Lemma GetEntryPoint_console obj :
  isPSXElf obj = true ->
  exists valid log,
    HasValidPSXHeader obj = Ok valid log /\
    GetEntryPoint obj
    = Ok (if valid then field_u32 (data obj) PSXEXEHeader.initial_pc
          else 0xFFFFFFFF) log.
Proof.
  intros Hpsx.
  destruct (HasValidPSXHeader_total obj) as (valid & log & Hv & Hsz).
  exists valid, log. split; [assumption|].
  unfold GetEntryPoint. rewrite Hpsx, Hv.
  destruct valid.
  - specialize (Hsz eq_refl). unfold size in Hsz.
    unfold bind. rewrite read_u32_ok by (unfold PSXEXEHeader.initial_pc; lia).
    rewrite app_nil_r. reflexivity.
  - unfold bind, ret. rewrite app_nil_r. reflexivity.
Qed.

(** X7: after a successful load from a file [GetEntryPoint] never reads
    outside the buffer, and its result is a 32-bit value; for an ELF load
    it is the [e_entry] field of the loaded header and nothing is
    reported. *)
Theorem GetEntryPoint_after_OpenFile trace obj0 srcfile isPSXElf_ fs obj log :
  OpenFile trace obj0 srcfile isPSXElf_ fs = Ok (Loaded obj) log ->
  exists pc l,
    GetEntryPoint obj = Ok pc l /\ 0 <= pc < 2 ^ 32 /\
    (isPSXElf_ = false ->
     pc = field_u32 (data obj) ELF_HEADER.e_entry /\ l = []).
Proof.
  intros H. apply OpenFile_loaded in H.
  destruct H as (fp & n & _ & _ & _ & _ & _ & _ & Hp & Helf).
  destruct isPSXElf_.
  - destruct (GetEntryPoint_console obj Hp) as (valid & l & _ & Hg).
    eexists _, l. split; [exact Hg|]. split; [|discriminate].
    destruct valid; [apply field_u32_range|lia].
  - destruct (Helf eq_refl) as (_ & Hs). unfold ELF_HEADER.sizeof, size in Hs.
    exists (field_u32 (data obj) ELF_HEADER.e_entry), [].
    split; [|split; [apply field_u32_range|auto]].
    unfold GetEntryPoint, header_u32. rewrite Hp.
    apply read_u32_ok; unfold ELF_HEADER.e_entry; lia.
Qed.

Lemma GetEntryPoint_after_OpenFile_witness :
  exists pc l,
    GetEntryPoint (text_object 0x100010 0x100000 0x2000) = Ok pc l /\
    0 <= pc < 2 ^ 32 /\
    (false = false ->
     pc = field_u32 (data (text_object 0x100010 0x100000 0x2000))
                    ELF_HEADER.e_entry /\ l = []).
Proof.
  apply (GetEntryPoint_after_OpenFile false ElfObject_ctor "a.elf" false
           (one_file "a.elf" (text_image 0x100010 0x100000 0x2000))
           (text_object 0x100010 0x100000 0x2000)
           [DevCon_WriteLn "Initializing Elf: %zu bytes" [ArgZ 84]]).
  vm_compute. reflexivity.
Defined.

(** * Further properties of header initialisation *)

Lemma console_app l1 l2 : console (l1 ++ l2) = console l1 ++ console l2.
Proof. apply filter_app. Qed.

Lemma quiet_ret {A} (a : A) : quiet (ret a).
Proof. intros x l H. inv_ret H. reflexivity. Qed.

Lemma quiet_bind {A B} (m : Outcome A) (f : A -> Outcome B) :
  quiet m -> (forall a, quiet (f a)) -> quiet (bind m f).
Proof.
  intros Hm Hf b l H. inv_bind H a Ha. subst l.
  rewrite console_app, (Hm _ _ Ha), (Hf _ _ _ H). reflexivity.
Qed.

Lemma quiet_header_u16 obj field : quiet (header_u16 obj field).
Proof. intros a l H. apply read_u16_inv in H. destruct H as (_ & -> & _). reflexivity. Qed.

Lemma quiet_header_u32 obj field : quiet (header_u32 obj field).
Proof. intros a l H. apply read_u32_inv in H. destruct H as (_ & -> & _). reflexivity. Qed.

Lemma quiet_arg m : quiet m -> quiet (arg m).
Proof. intros H. unfold arg. apply quiet_bind; [exact H|intros; apply quiet_ret]. Qed.

Lemma quiet_elf_log trace fmt args : quiet args -> quiet (elf_log trace fmt args).
Proof.
  intros H. unfold elf_log. destruct trace; [|apply quiet_ret].
  apply quiet_bind; [exact H|].
  intros a u l He. unfold emit in He. inversion He. reflexivity.
Qed.

Ltac inv_bind_as H a Hm l1 l2 :=
  apply bind_Ok_inv in H; destruct H as (a & l1 & l2 & Hm & H & ->).

Ltac quiet_step :=
  match goal with
  | |- quiet (bind _ _) => apply quiet_bind; [|intros]
  | |- quiet (if ?c then _ else _) => destruct c
  | |- quiet (header_u16 _ _) => apply quiet_header_u16
  | |- quiet (header_u32 _ _) => apply quiet_header_u32
  | |- quiet (elf_log _ _ _) => apply quiet_elf_log
  | |- quiet (arg _) => apply quiet_arg
  | |- quiet (text _) => apply quiet_ret
  | |- quiet no_args => apply quiet_ret
  | |- quiet (ret _) => apply quiet_ret
  end.

Lemma view_step_log {A} (num sz len : Z) (rd : Outcome Z) (set : Z -> A) (keep : A)
      (what : string) (a : A) (l : list Diag) off :
  rd = Ok off [] ->
  (if num >? 0 then
     o <- rd ;;
     if o + sz <=? len then ret (set o)
     else emit (Console_Error what [ArgZ o; ArgZ len]) ;; ret keep
   else ret keep) = Ok a l ->
  l = offset_error what num off sz len.
Proof.
  intros Hrd H. unfold offset_error.
  destruct (num >? 0); simpl.
  - rewrite Hrd, bind_Ok_nil in H.
    destruct (off + sz <=? len); simpl.
    + inv_ret H. reflexivity.
    + unfold bind, emit, ret in H. inversion H. reflexivity.
  - inv_ret H. reflexivity.
Qed.

Lemma entsize_step_log (num sz : Z) (rd : Outcome Z) (what : string)
      (u : unit) (l : list Diag) entsize :
  rd = Ok entsize [] ->
  (if num >? 0 then
     e <- rd ;;
     when (negb (e =? sz)) (emit (Console_Error what []))
   else ret tt) = Ok u l ->
  l = entsize_error what num entsize sz.
Proof.
  intros Hrd H. unfold entsize_error.
  destruct (num >? 0); simpl.
  - rewrite Hrd, bind_Ok_nil in H.
    destruct (negb (entsize =? sz)); simpl in *.
    + unfold emit in H. inversion H. reflexivity.
    + inv_ret H. reflexivity.
  - inv_ret H. reflexivity.
Qed.

Lemma console_offset_error what num off sz len :
  console (offset_error what num off sz len) = offset_error what num off sz len.
Proof. unfold offset_error. destruct (_ && _); reflexivity. Qed.

Lemma console_entsize_error what num entsize sz :
  console (entsize_error what num entsize sz) = entsize_error what num entsize sz.
Proof. unfold entsize_error. destruct (_ && _); reflexivity. Qed.

(** X8: the console output of header initialisation.  For an ELF object
    whose header is in the buffer, [InitElfHeaders] never reads outside
    the buffer, and what it writes to the console, whether ELF tracing is
    active or not, is the size line followed, in this order, by the
    offset error of the program-header table, the offset error of the
    section-header table, the entry-size error of the section headers
    and the entry-size error of the program headers, each present
    exactly when its count is positive and its check fails. *)
Theorem InitElfHeaders_console trace obj :
  isPSXElf obj = false -> ELF_HEADER.sizeof <= size obj ->
  exists obj' log,
    InitElfHeaders trace obj = Ok obj' log /\
    console log =
      [DevCon_WriteLn "Initializing Elf: %zu bytes" [ArgZ (size obj)]]
      ++ offset_error "(ELF) Program header offset %u is larger than file size %zu"
           (field_u16 (data obj) ELF_HEADER.e_phnum)
           (field_u32 (data obj) ELF_HEADER.e_phoff) ELF_PHR.sizeof (size obj)
      ++ offset_error "(ELF) Section header offset %u is larger than file size %zu"
           (field_u16 (data obj) ELF_HEADER.e_shnum)
           (field_u32 (data obj) ELF_HEADER.e_shoff) ELF_SHR.sizeof (size obj)
      ++ entsize_error "(ELF) Size of section headers is not standard"
           (field_u16 (data obj) ELF_HEADER.e_shnum)
           (field_u16 (data obj) ELF_HEADER.e_shentsize) ELF_SHR.sizeof
      ++ entsize_error "(ELF) Size of program headers is not standard"
           (field_u16 (data obj) ELF_HEADER.e_phnum)
           (field_u16 (data obj) ELF_HEADER.e_phentsize) ELF_PHR.sizeof.
Proof.
  intros Helf Hsz.
  destruct (InitElfHeaders_succeeds trace obj (or_intror Hsz)) as (obj' & log & H).
  exists obj', log. split; [exact H|].
  unfold ELF_HEADER.sizeof, size in Hsz.
  unfold InitElfHeaders in H. rewrite Helf in H.
  inv_bind_as H u Hu l0 k0. unfold emit in Hu. inversion Hu; subst l0; clear Hu.
  inv_bind_as H e_phnum Hphnum l1 k1.
  inv_bind_as H obj1 Hobj1 l2 k2.
  inv_bind_as H e_shnum Hshnum l3 k3.
  inv_bind_as H obj2 Hobj2 l4 k4.
  inv_bind_as H u1 Hshent l5 k5.
  inv_bind_as H u2 Hphent l6 k6.
  apply read_u16_inv in Hphnum. destruct Hphnum as (-> & -> & _).
  apply read_u16_inv in Hshnum. destruct Hshnum as (-> & -> & _).
  apply (view_step_log _ _ _ _ _ _ _ _ _ (field_u32 (data obj) ELF_HEADER.e_phoff))
    in Hobj1;
    [|apply read_u32_ok; unfold ELF_HEADER.e_phoff; lia].
  apply (view_step_log _ _ _ _ _ _ _ _ _ (field_u32 (data obj) ELF_HEADER.e_shoff))
    in Hobj2;
    [|apply read_u32_ok; unfold ELF_HEADER.e_shoff; lia].
  apply (entsize_step_log _ _ _ _ _ _ (field_u16 (data obj) ELF_HEADER.e_shentsize))
    in Hshent;
    [|apply read_u16_ok; unfold ELF_HEADER.e_shentsize; lia].
  apply (entsize_step_log _ _ _ _ _ _ (field_u16 (data obj) ELF_HEADER.e_phentsize))
    in Hphent;
    [|apply read_u16_ok; unfold ELF_HEADER.e_phentsize; lia].
  assert (Hq : console k6 = []).
  { revert H. generalize obj' k6.
    match goal with |- forall a l, ?m = Ok a l -> _ => change (quiet m) end.
    repeat quiet_step. }
  subst l2 l4 l5 l6.
  rewrite !console_app, Hq, app_nil_r. cbn [app].
  rewrite !console_offset_error, !console_entsize_error. reflexivity.
Qed.

Lemma InitElfHeaders_console_witness :
  exists obj' log,
    InitElfHeaders true
      (mkElfObject (elf_header 0x100000 1000 0 1 0 0 ++ zeros 4)
                   None None "a.elf" false)
    = Ok obj' log /\
    console log =
      [DevCon_WriteLn "Initializing Elf: %zu bytes" [ArgZ 56]]
      ++ [Console_Error "(ELF) Program header offset %u is larger than file size %zu"
            [ArgZ 1000; ArgZ 56]]
      ++ [] ++ [] ++ [].
Proof.
  apply (InitElfHeaders_console true
           (mkElfObject (elf_header 0x100000 1000 0 1 0 0 ++ zeros 4)
                        None None "a.elf" false)).
  - reflexivity.
  - vm_compute. discriminate.
Defined.

(** * Further properties of the text range *)

Lemma GetTextRange_loop_inv obj p n : forall i s z l,
  GetTextRange_loop obj p n i = Ok (s, z) l ->
  l = [] /\
  ((s, z) = (0, 0) \/
   exists k,
     i <= k < i + Z.of_nat n /\ phdr obj p k = (s, z) /\
     holds_entry32 (field_u32 (data obj) ELF_HEADER.e_entry) (s, z)).
Proof.
  induction n as [|n IH]; intros i s z l H.
  - inv_ret H. auto.
  - cbn [GetTextRange_loop] in H.
    inv_bind H start Hstart. inv_bind H sz Hsz. inv_bind H e Hent.
    unfold phr_u32 in Hstart, Hsz. unfold header_u32 in Hent.
    apply read_u32_inv in Hstart. destruct Hstart as (-> & -> & _).
    apply read_u32_inv in Hsz. destruct Hsz as (-> & -> & _).
    apply read_u32_inv in Hent. destruct Hent as (-> & -> & _).
    subst. cbn [app].
    match type of H with
    | (if ?c then _ else _) = _ => destruct c eqn:Ht
    end.
    + inv_ret H. split; [reflexivity|]. right. exists i.
      split; [lia|]. split; [reflexivity|].
      apply text_test_spec. exact Ht.
    + apply IH in H. destruct H as (-> & [H|(k & Hk & Hr & Hh)]).
      * auto.
      * split; [reflexivity|]. right. exists k. split; [lia|]. auto.
Qed.

(** X9: whatever [GetTextRange] returns is sound: it reports nothing, and
    its result is either (0, 0) or the ([p_vaddr], [p_memsz]) of a record
    of the program-header table, both 32-bit values, whose interval
    [[p_vaddr, p_vaddr + p_memsz)] contains the entry point. *)
Theorem GetTextRange_sound obj s z l :
  GetTextRange obj = Ok (s, z) l ->
  l = [] /\
  ((s, z) = (0, 0) \/
   isPSXElf obj = false /\
   0 <= s < 2 ^ 32 /\ 0 <= z < 2 ^ 32 /\
   holds_entry (field_u32 (data obj) ELF_HEADER.e_entry) (s, z) /\
   exists p k,
     proghead obj = Some p /\
     0 <= k < field_u16 (data obj) ELF_HEADER.e_phnum /\
     phdr obj p k = (s, z)).
Proof.
  unfold GetTextRange. intros H.
  destruct (isPSXElf obj); simpl negb in H; cbv iota in H;
    [inv_ret H; auto|].
  destruct (proghead obj) as [p|]; [|inv_ret H; auto].
  inv_bind H e_phnum Hn. unfold header_u16 in Hn.
  apply read_u16_inv in Hn. destruct Hn as (-> & -> & _).
  pose proof (field_u16_range (data obj) ELF_HEADER.e_phnum) as Hr.
  apply GetTextRange_loop_inv in H. rewrite Z2Nat.id in H by lia.
  destruct H as (-> & [H|(k & Hk & Hrec & Hh)]); subst; [auto|].
  split; [reflexivity|]. right. split; [reflexivity|].
  assert (Hs : 0 <= s < 2 ^ 32)
    by (unfold phdr in Hrec; inversion Hrec; apply field_u32_range).
  assert (Hz : 0 <= z < 2 ^ 32)
    by (unfold phdr in Hrec; inversion Hrec; apply field_u32_range).
  split; [exact Hs|]. split; [exact Hz|]. split.
  - apply holds_entry32_holds_entry; try assumption. apply field_u32_range.
  - exists p, k. repeat split; try lia; assumption.
Qed.

Lemma GetTextRange_sound_witness :
  [] = ([] : list Diag) /\
  ((0x100000, 0x2000) = (0, 0) \/
   isPSXElf (text_object 0x100010 0x100000 0x2000) = false /\
   0 <= 0x100000 < 2 ^ 32 /\ 0 <= 0x2000 < 2 ^ 32 /\
   holds_entry (field_u32 (data (text_object 0x100010 0x100000 0x2000))
                          ELF_HEADER.e_entry) (0x100000, 0x2000) /\
   exists p k,
     proghead (text_object 0x100010 0x100000 0x2000) = Some p /\
     0 <= k < field_u16 (data (text_object 0x100010 0x100000 0x2000))
                        ELF_HEADER.e_phnum /\
     phdr (text_object 0x100010 0x100000 0x2000) p k = (0x100000, 0x2000)).
Proof.
  apply (GetTextRange_sound (text_object 0x100010 0x100000 0x2000)).
  vm_compute. reflexivity.
Defined.

(** * Further properties of the checksum *)

Lemma lxor_range a b :
  0 <= a < 2 ^ 32 -> 0 <= b < 2 ^ 32 -> 0 <= Z.lxor a b < 2 ^ 32.
Proof.
  intros Ha Hb.
  assert (Hn : 0 <= Z.lxor a b) by (apply Z.lxor_nonneg; lia).
  split; [exact Hn|].
  destruct (Z.eq_dec a 0) as [->|Ha0]; [rewrite Z.lxor_0_l; lia|].
  destruct (Z.eq_dec b 0) as [->|Hb0]; [rewrite Z.lxor_0_r; lia|].
  destruct (Z.eq_dec (Z.lxor a b) 0) as [->|Hx0]; [reflexivity|].
  apply Z.log2_lt_pow2; [lia|].
  pose proof (Z.log2_lxor a b ltac:(lia) ltac:(lia)) as Hl.
  assert (Z.log2 a < 32) by (apply Z.log2_lt_pow2; lia).
  assert (Z.log2 b < 32) by (apply Z.log2_lt_pow2; lia).
  lia.
Qed.

Lemma words_le_range d : Forall (fun w => 0 <= w < 2 ^ 32) (words_le d).
Proof.
  induction d as [d Hd|a b c e rest IH] using list_ind4.
  - rewrite words_le_short by assumption. constructor.
  - cbn [words_le]. constructor; [|exact IH].
    exact (le_combine_bound [a; b; c; e]).
Qed.

Lemma xor_words_range ws :
  Forall (fun w => 0 <= w < 2 ^ 32) ws -> 0 <= xor_words ws < 2 ^ 32.
Proof.
  induction 1 as [|w ws Hw Hws IH].
  - simpl. lia.
  - rewrite xor_words_cons. apply lxor_range; assumption.
Qed.

Lemma Forall_firstn {A} (P : A -> Prop) n l : Forall P l -> Forall P (firstn n l).
Proof.
  intros H. revert n. induction H as [|x l Hx Hl IH]; intros [|n]; simpl;
    constructor; auto.
Qed.

(** X10: [GetCRC] never reads outside the buffer, reports nothing, and
    its result is a 32-bit value. *)
Theorem GetCRC_range obj :
  exists crc, GetCRC obj = Ok crc [] /\ 0 <= crc < 2 ^ 32.
Proof.
  eexists. split; [apply GetCRC_eq|].
  apply xor_words_range, Forall_firstn, words_le_range.
Qed.

Lemma GetCRC_all obj :
  size obj < 2 ^ 32 -> GetCRC obj = Ok (xor_words (words_le (data obj))) [].
Proof.
  intros Hlt. rewrite GetCRC_eq, (crc_words_all obj Hlt), firstn_all.
  reflexivity.
Qed.

(** X11: the checksum of a concatenation.  When a buffer of fewer than
    2^32 bytes is [a ++ b] with the length of [a] a multiple of 4, its
    checksum is the exclusive-or of the checksums of [a] and of [b]. *)
Theorem GetCRC_app obj oa ob :
  data obj = data oa ++ data ob ->
  (length (data oa) mod 4 = 0)%nat ->
  size obj < 2 ^ 32 ->
  exists ca cb,
    GetCRC oa = Ok ca [] /\ GetCRC ob = Ok cb [] /\
    GetCRC obj = Ok (Z.lxor ca cb) [].
Proof.
  intros Hd Ha Hlt.
  assert (Hlen : size obj = size oa + size ob)
    by (unfold size; rewrite Hd, length_app; lia).
  assert (0 <= size oa) by (unfold size; lia).
  assert (0 <= size ob) by (unfold size; lia).
  exists (xor_words (words_le (data oa))), (xor_words (words_le (data ob))).
  split; [apply GetCRC_all; lia|]. split; [apply GetCRC_all; lia|].
  rewrite (GetCRC_all obj Hlt), Hd, words_le_app, xor_words_app by assumption.
  reflexivity.
Qed.

Lemma GetCRC_app_witness :
  exists ca cb,
    GetCRC (mkElfObject (le_split 4 5) None None "a" false) = Ok ca [] /\
    GetCRC (mkElfObject (le_split 4 6 ++ [Byte.x01]) None None "b" false)
    = Ok cb [] /\
    GetCRC (mkElfObject (le_split 4 5 ++ le_split 4 6 ++ [Byte.x01])
                        None None "ab" false)
    = Ok (Z.lxor ca cb) [].
Proof.
  apply GetCRC_app; [reflexivity|reflexivity|vm_compute; reflexivity].
Defined.

(** X12: the checksum detects a change of one word.  Two buffers of fewer
    than 2^32 bytes that differ in exactly one aligned 32-bit word have
    different checksums. *)
Theorem GetCRC_detects_one_word obj obj' pre w w' post :
  data obj = pre ++ w ++ post -> data obj' = pre ++ w' ++ post ->
  length w = 4%nat -> length w' = 4%nat -> (length pre mod 4 = 0)%nat ->
  w <> w' -> size obj < 2 ^ 32 ->
  GetCRC obj <> GetCRC obj'.
Proof.
  intros Hd Hd' Hw Hw' Hpre Hne Hlt.
  assert (Hlt' : size obj' < 2 ^ 32).
  { unfold size in *. rewrite Hd' , !length_app, Hw'.
    rewrite Hd, !length_app, Hw in Hlt. exact Hlt. }
  rewrite (GetCRC_all obj Hlt), (GetCRC_all obj' Hlt'), Hd, Hd'.
  rewrite !(words_le_app pre) by assumption.
  rewrite (words_le_app w) by (rewrite Hw; reflexivity).
  rewrite (words_le_app w') by (rewrite Hw'; reflexivity).
  rewrite (words_le_word w), (words_le_word w') by assumption.
  rewrite !xor_words_app. cbn [xor_words fold_right]. rewrite !Z.lxor_0_r.
  intros Heq. injection Heq as Heq.
  apply (f_equal (Z.lxor (xor_words (words_le pre)))) in Heq.
  rewrite <- !Z.lxor_assoc, !Z.lxor_nilpotent, !Z.lxor_0_l in Heq.
  apply (f_equal (fun x => Z.lxor x (xor_words (words_le post)))) in Heq.
  rewrite !Z.lxor_assoc, !Z.lxor_nilpotent, !Z.lxor_0_r in Heq.
  apply Hne. apply le_combine_inj; [congruence|exact Heq].
Qed.

Lemma GetCRC_detects_one_word_witness :
  GetCRC (mkElfObject (le_split 4 7 ++ le_split 4 1 ++ [Byte.xff])
                      None None "a" false)
  <> GetCRC (mkElfObject (le_split 4 7 ++ le_split 4 2 ++ [Byte.xff])
                         None None "b" false).
Proof.
  apply (GetCRC_detects_one_word _ _ (le_split 4 7) (le_split 4 1) (le_split 4 2)
           [Byte.xff]); try reflexivity.
  vm_compute. discriminate.
Defined.

(** * Further properties of the header dump *)

Lemma succeeds_phr_u32 obj p i field :
  0 <= p + ELF_PHR.sizeof * i + field ->
  p + ELF_PHR.sizeof * i + field + 4 <= size obj ->
  succeeds (phr_u32 obj p i field).
Proof.
  intros. unfold phr_u32. rewrite read_u32_ok by assumption.
  eexists _, _. reflexivity.
Qed.

Lemma succeeds_shr_u32 obj s i field :
  0 <= s + ELF_SHR.sizeof * i + field ->
  s + ELF_SHR.sizeof * i + field + 4 <= size obj ->
  succeeds (shr_u32 obj s i field).
Proof.
  intros. unfold shr_u32. rewrite read_u32_ok by assumption.
  eexists _, _. reflexivity.
Qed.

Lemma until_NUL_In l : In Byte.x00 l -> exists s, until_NUL l = Some s.
Proof.
  induction l as [|b l IH]; intros H; [contradiction|].
  cbn [until_NUL]. destruct (Byte.eqb b Byte.x00) eqn:Hb; [eauto|].
  destruct H as [->|H]; [discriminate|].
  destruct (IH H) as (s & ->). simpl. eauto.
Qed.

Lemma succeeds_read_cstring data off :
  0 <= off -> In Byte.x00 (skipn (Z.to_nat off) data) ->
  succeeds (read_cstring data off).
Proof.
  intros H0 Hin. unfold read_cstring.
  assert (Hlt : off < Z.of_nat (length data)).
  { destruct (Z.lt_ge_cases off (Z.of_nat (length data))) as [?|Hge]; [assumption|].
    rewrite skipn_all2 in Hin by lia. contradiction. }
  destruct (Z.leb_spec 0 off); [|lia].
  destruct (Z.ltb_spec off (Z.of_nat (length data))); [|lia].
  destruct (until_NUL_In _ Hin) as (s & ->). apply succeeds_ret.
Qed.

Ltac record_field :=
  first [apply succeeds_phr_u32 | apply succeeds_shr_u32];
  cbv [ELF_PHR.sizeof ELF_PHR.p_type ELF_PHR.p_offset ELF_PHR.p_vaddr
       ELF_PHR.p_paddr ELF_PHR.p_filesz ELF_PHR.p_memsz ELF_PHR.p_flags
       ELF_PHR.p_align
       ELF_SHR.sizeof ELF_SHR.sh_name ELF_SHR.sh_type ELF_SHR.sh_flags
       ELF_SHR.sh_addr ELF_SHR.sh_offset ELF_SHR.sh_size ELF_SHR.sh_link
       ELF_SHR.sh_info ELF_SHR.sh_addralign ELF_SHR.sh_entsize]; lia.

Ltac dump_step :=
  match goal with
  | |- succeeds (bind _ _) => apply succeeds_bind; [|intros]
  | |- succeeds (if ?c then _ else _) => destruct c
  | |- succeeds (match ?c with Some _ => _ | None => _ end) => destruct c
  | |- succeeds (phr_u32 _ _ _ _) => record_field
  | |- succeeds (shr_u32 _ _ _ _) => record_field
  | |- succeeds (elf_log _ _ _) => apply succeeds_elf_log
  | |- succeeds (arg _) => apply succeeds_arg
  | |- succeeds (text _) => apply succeeds_ret
  | |- succeeds no_args => apply succeeds_ret
  | |- succeeds (ret _) => apply succeeds_ret
  end.

Lemma LoadProgramHeaders_loop_succeeds trace obj p n : forall i,
  0 <= p -> 0 <= i -> p + 32 * (i + Z.of_nat n) <= size obj ->
  succeeds (LoadProgramHeaders_loop trace obj p n i).
Proof.
  induction n as [|n IH]; intros i Hp Hi Hfit.
  - apply succeeds_ret.
  - cbn [LoadProgramHeaders_loop]. repeat dump_step.
    apply IH; lia.
Qed.

Lemma LoadProgramHeaders_succeeds trace obj :
  ELF_HEADER.sizeof <= size obj ->
  (forall p, proghead obj = Some p ->
     0 <= p /\ p + 32 * field_u16 (data obj) ELF_HEADER.e_phnum <= size obj) ->
  succeeds (LoadProgramHeaders trace obj).
Proof.
  intros Hsz Hfit. unfold LoadProgramHeaders, header_u16.
  destruct (proghead obj) as [p|]; [|apply succeeds_ret].
  destruct (Hfit p eq_refl) as (Hp0 & Hp).
  unfold ELF_HEADER.sizeof, size in Hsz.
  pose proof (field_u16_range (data obj) ELF_HEADER.e_phnum) as Hr.
  rewrite read_u16_ok by (unfold ELF_HEADER.e_phnum; lia).
  rewrite bind_Ok_nil.
  apply LoadProgramHeaders_loop_succeeds; lia.
Qed.

(** X13: the program-header dump stays inside the buffer when the table
    does: with the header and all [e_phnum] records of the table within
    the buffer, [LoadProgramHeaders] never reads outside it, whether ELF
    tracing is active or not. *)
Theorem LoadProgramHeaders_stays_in_buffer trace obj p :
  proghead obj = Some p -> 0 <= p -> ELF_HEADER.sizeof <= size obj ->
  p + 32 * field_u16 (data obj) ELF_HEADER.e_phnum <= size obj ->
  exists log, LoadProgramHeaders trace obj = Ok tt log.
Proof.
  intros Hp Hp0 Hsz Hfit.
  destruct (LoadProgramHeaders_succeeds trace obj Hsz) as ([] & log & H).
  - intros p' Hp'. rewrite Hp in Hp'. injection Hp' as <-. auto.
  - eauto.
Qed.

Lemma LoadProgramHeaders_stays_in_buffer_witness :
  exists log,
    LoadProgramHeaders true (text_object 0x100010 0x100000 0x2000) = Ok tt log.
Proof.
  apply (LoadProgramHeaders_stays_in_buffer true
           (text_object 0x100010 0x100000 0x2000) 52).
  - reflexivity.
  - lia.
  - vm_compute. discriminate.
  - vm_compute. discriminate.
Defined.

Lemma LoadSectionHeaders_loop_succeeds trace obj s names n : forall i,
  0 <= s -> 0 <= i -> s + 40 * (i + Z.of_nat n) <= size obj ->
  (trace = true ->
   forall j, i <= j < i + Z.of_nat n ->
     In Byte.x00
        (skipn (Z.to_nat
                  (names + field_u32 (data obj)
                                     (s + ELF_SHR.sizeof * j + ELF_SHR.sh_name)))
               (data obj))) ->
  0 <= names ->
  succeeds (LoadSectionHeaders_loop trace obj s names n i).
Proof.
  induction n as [|n IH]; intros i Hs Hi Hfit Hnames Hn0.
  - apply succeeds_ret.
  - cbn [LoadSectionHeaders_loop].
    apply succeeds_bind; [|intros _].
    { unfold elf_log. destruct trace eqn:Ht; [|apply succeeds_ret].
      apply succeeds_bind; [|intros; apply succeeds_emit].
      unfold shr_u32.
      rewrite read_u32_ok
        by (unfold size in Hfit; cbv [ELF_SHR.sizeof ELF_SHR.sh_name]; lia).
      rewrite bind_Ok_nil.
      apply succeeds_bind; [|intros; apply succeeds_ret].
      pose proof (field_u32_range (data obj)
                    (s + ELF_SHR.sizeof * i + ELF_SHR.sh_name)).
      apply succeeds_read_cstring; [lia|].
      apply Hnames; [reflexivity|lia]. }
    repeat dump_step.
    all: apply IH; try lia; intros Ht j Hj; apply Hnames; [exact Ht|lia].
Qed.

Lemma LoadSectionHeaders_succeeds trace obj :
  ELF_HEADER.sizeof <= size obj ->
  (forall s, secthead obj = Some s ->
     0 <= s /\
     s + 40 * (shstrndx obj + 1) <= size obj /\
     s + 40 * field_u16 (data obj) ELF_HEADER.e_shnum <= size obj /\
     (trace = true ->
      forall i, 0 <= i < field_u16 (data obj) ELF_HEADER.e_shnum ->
        In Byte.x00
           (skipn (Z.to_nat (section_name_offset obj s i)) (data obj)))) ->
  succeeds (LoadSectionHeaders trace obj).
Proof.
  intros Hsz Hfit. unfold LoadSectionHeaders, header_u16, header_u32.
  destruct (secthead obj) as [s|]; [|apply succeeds_ret].
  destruct (Hfit s eq_refl) as (Hs0 & Hstr & Htab & Hnames).
  unfold ELF_HEADER.sizeof in Hsz.
  pose proof (field_u16_range (data obj) ELF_HEADER.e_shnum) as Hr.
  pose proof (field_u16_range (data obj) ELF_HEADER.e_shstrndx) as Hx.
  assert (Hi : 0 <= shstrndx obj)
    by (unfold shstrndx; destruct (_ =? 0xffff); lia).
  rewrite read_u32_ok by (unfold size in Hsz; unfold ELF_HEADER.e_shoff; lia).
  rewrite bind_Ok_nil.
  destruct (_ >? size obj); [apply succeeds_ret|].
  rewrite read_u16_ok by (unfold size in Hsz; unfold ELF_HEADER.e_shstrndx; lia).
  rewrite bind_Ok_nil. fold (shstrndx obj).
  unfold shr_u32 at 1.
  rewrite read_u32_ok
    by (unfold size in Hstr; cbv [ELF_SHR.sizeof ELF_SHR.sh_offset]; lia).
  rewrite bind_Ok_nil.
  rewrite read_u16_ok by (unfold size in Hsz; unfold ELF_HEADER.e_shnum; lia).
  rewrite bind_Ok_nil.
  apply LoadSectionHeaders_loop_succeeds; try lia.
  - intros Ht j Hj. apply (Hnames Ht j). lia.
  - apply field_u32_range.
Qed.

(** X14: the header dump stays inside the buffer when the tables and the
    names do.  [LoadHeaders] never reads outside the buffer when the
    header is in it, every record of each present table is in it, the
    section-header record selected by the string-table index is in it
    and, when ELF tracing is active, every section name has a NUL at or
    after its offset in the buffer. *)
Theorem LoadHeaders_stays_in_buffer trace obj :
  ELF_HEADER.sizeof <= size obj ->
  (forall p, proghead obj = Some p ->
     0 <= p /\ p + 32 * field_u16 (data obj) ELF_HEADER.e_phnum <= size obj) ->
  (forall s, secthead obj = Some s ->
     0 <= s /\
     s + 40 * (shstrndx obj + 1) <= size obj /\
     s + 40 * field_u16 (data obj) ELF_HEADER.e_shnum <= size obj /\
     (trace = true ->
      forall i, 0 <= i < field_u16 (data obj) ELF_HEADER.e_shnum ->
        In Byte.x00
           (skipn (Z.to_nat (section_name_offset obj s i)) (data obj)))) ->
  exists log, LoadHeaders trace obj = Ok tt log.
Proof.
  intros Hsz Hp Hs.
  assert (H : succeeds (LoadHeaders trace obj)).
  { unfold LoadHeaders. destruct (isPSXElf obj); [apply succeeds_ret|].
    apply succeeds_bind; [|intros _].
    - apply LoadProgramHeaders_succeeds; assumption.
    - apply LoadSectionHeaders_succeeds; assumption. }
  destruct H as ([] & log & H). eauto.
Qed.

Lemma LoadHeaders_stays_in_buffer_witness :
  exists log, LoadHeaders true strtab_object = Ok tt log.
Proof.
  apply LoadHeaders_stays_in_buffer.
  - vm_compute. discriminate.
  - intros p Hp. discriminate Hp.
  - intros s Hs. injection Hs as <-.
    split; [lia|]. split; [vm_compute; discriminate|].
    split; [vm_compute; discriminate|].
    intros _ i Hi.
    change (field_u16 (data strtab_object) ELF_HEADER.e_shnum) with 1 in Hi.
    assert (i = 0) by lia. subst i.
    vm_compute. do 9 right. left. reflexivity.
Defined.

(** * What the one-record check of a load covers *)

Lemma GetTextRange_succeeds obj :
  ELF_HEADER.sizeof <= size obj ->
  (forall p, proghead obj = Some p ->
     0 <= p /\ p + 32 * field_u16 (data obj) ELF_HEADER.e_phnum <= size obj) ->
  exists r, GetTextRange obj = Ok r [].
Proof.
  intros Hsz Hfit. unfold GetTextRange, header_u16.
  destruct (negb (isPSXElf obj)); [|eexists; reflexivity].
  destruct (proghead obj) as [p|]; [|eexists; reflexivity].
  destruct (Hfit p eq_refl) as (Hp0 & Hp).
  unfold ELF_HEADER.sizeof in Hsz.
  pose proof (field_u16_range (data obj) ELF_HEADER.e_phnum) as Hr.
  rewrite read_u16_ok by (unfold size in Hsz; unfold ELF_HEADER.e_phnum; lia).
  rewrite bind_Ok_nil.
  destruct (GetTextRange_loop_spec obj p
              (Z.to_nat (field_u16 (data obj) ELF_HEADER.e_phnum)) 0)
    as [(k & _ & _ & _ & H)|(_ & H)]; try lia; eauto.
Qed.

(** X15: the bounds check of a load covers one record.  After a
    successful ELF load from a file into a new object whose header
    declares at most one program header, [GetTextRange] and
    [LoadProgramHeaders] never read outside the buffer. *)
Theorem loaded_single_record_safe trace srcfile fs obj log :
  OpenFile trace ElfObject_ctor srcfile false fs = Ok (Loaded obj) log ->
  field_u16 (data obj) ELF_HEADER.e_phnum <= 1 ->
  (exists r, GetTextRange obj = Ok r []) /\
  (forall trace', exists l, LoadProgramHeaders trace' obj = Ok tt l).
Proof.
  intros H Hn. apply OpenFile_inv in H. destruct H as (bytes & H & Hlen).
  specialize (Hlen eq_refl).
  apply fresh_load_inv in H. destruct H as (Hd & _ & _ & Helf).
  destruct (Helf eq_refl) as (Hp & _). clear Helf.
  assert (Hsz : ELF_HEADER.sizeof <= size obj)
    by (unfold size; rewrite Hd; lia).
  assert (Hfit : forall p, proghead obj = Some p ->
            0 <= p /\ p + 32 * field_u16 (data obj) ELF_HEADER.e_phnum <= size obj).
  { intros p Hpp. rewrite Hp in Hpp. rewrite Hd in *.
    pose proof (field_u32_range bytes ELF_HEADER.e_phoff) as Ro.
    pose proof (field_u16_range bytes ELF_HEADER.e_phnum) as Rn.
    unfold size. rewrite Hd. unfold ELF_PHR.sizeof in Hpp.
    destruct (Z.gtb_spec (field_u16 bytes ELF_HEADER.e_phnum) 0);
      destruct (Z.leb_spec (field_u32 bytes ELF_HEADER.e_phoff + 32)
                           (Z.of_nat (length bytes)));
      simpl in Hpp; try discriminate.
    injection Hpp as <-. lia. }
  split.
  - apply GetTextRange_succeeds; assumption.
  - intros trace'.
    destruct (LoadProgramHeaders_succeeds trace' obj Hsz Hfit) as ([] & l & Hl).
    eauto.
Qed.

Lemma loaded_single_record_safe_witness :
  (exists r, GetTextRange (text_object 0x100010 0x100000 0x2000) = Ok r []) /\
  (forall trace', exists l,
     LoadProgramHeaders trace' (text_object 0x100010 0x100000 0x2000) = Ok tt l).
Proof.
  apply (loaded_single_record_safe false "a.elf"
           (one_file "a.elf" (text_image 0x100010 0x100000 0x2000))
           (text_object 0x100010 0x100000 0x2000)
           [DevCon_WriteLn "Initializing Elf: %zu bytes" [ArgZ 84]]).
  - vm_compute. reflexivity.
  - vm_compute. discriminate.
Defined.
